(** * Student-marks bot: reconciliation, classification and delivery

    A shallow embedding of [src/main.py] and the properties of its record
    reconciliation pipeline, grade classifier, report formatter and
    message handler.

    Embedded from the source:
    - [StudentDataFetcher.get_status] and [StudentDataFetcher.parse_date];
    - of [StudentDataFetcher.fetch_student_data], the dictionary built for
      a table row, the grouping of the occurrences by subject name, the
      entry combined for each group, the final sort and the returned
      dictionary; the request and the HTML extraction before them are the
      outside world, given as the page they produce;
    - [TelegramBot.format_student_message] and
      [TelegramBot.handle_student_id], with the delivery in chunks;
    - [StudentDataFetcher.convert_arabic_numbers] and the extraction of
      the name, the year and the rows from the parsed page (module
      [Extraction]), which refine the page given above;
    - [get_bot_token], [main] and the run of the file as a script, from
      the import statements at its top on (module [Config]);
    - the endpoints of [src/server.py] (module [Server]).

    Python values are modelled as follows.
    - [str] is a list of Unicode code points, so that [len], [strip],
      [isdigit] and [split] count and classify characters the way Python
      does; the tables are those of Unicode 14.0 (CPython 3.11);
    - [float] is the kernel's IEEE-754 binary64 type, which is what CPython
      uses, with [nan], the infinities and signed zeros; [float] of a
      string (module [PyFloat]) is an instance used in the examples, and
      the statements hold for any conversion;
    - a [datetime] produced by [strptime] with the format ["%Y/%m/%d"] is
      a calendar date at midnight;
    - a [dict] in insertion order is an association list;
    - [sorted] and [list.sort], which Python guarantees stable and which
      compare with [<] only, are a stable insertion sort;
    - an exception that a [try] turns into [None] is [None];
    - replies and the network request are events of an output trace. *)

From Stdlib Require Import Ascii String.
From Stdlib Require Import List ZArith NArith PArith Lia Bool Arith.
From Stdlib Require Import Floats.
From Stdlib Require Import Sorted Permutation.
Import ListNotations.

Set Implicit Arguments.

(* ================================================================== *)
(** * Part I: the model *)
(* ================================================================== *)

(** ** Python strings *)

Module Str.

(** A character is a code point; a string is the list of its characters. *)
Definition char := N.
Definition str := list char.

Definition str_eq_dec : forall a b : str, {a = b} + {a <> b} :=
  list_eq_dec N.eq_dec.

Definition str_eqb (a b : str) : bool :=
  if str_eq_dec a b then true else false.

(** Source literals are written as UTF-8 text and decoded to code points. *)
Fixpoint utf8_go (bs : list N) (need : nat) (acc : N) : str :=
  match bs with
  | [] => []
  | b :: bs' =>
      match need with
      | O =>
          if (b <? 0x80)%N then b :: utf8_go bs' 0 0%N
          else if (b <? 0xE0)%N then utf8_go bs' 1 (b - 0xC0)%N
          else if (b <? 0xF0)%N then utf8_go bs' 2 (b - 0xE0)%N
          else utf8_go bs' 3 (b - 0xF0)%N
      | S O => (acc * 64 + (b - 0x80))%N :: utf8_go bs' 0 0%N
      | S n => utf8_go bs' n (acc * 64 + (b - 0x80))%N
      end
  end.

Definition utf8 (s : string) : str :=
  utf8_go (map N_of_ascii (list_ascii_of_string s)) 0 0%N.
Arguments utf8 s%_string.

Definition NL : char := 10%N.
Definition SPACE : char := 32%N.
Definition SLASH : char := 0x2F%N.

Definition len (s : str) : nat := length s.

(** [in_ranges c t]: [c] lies in one of the closed intervals of [t]. *)
Definition in_ranges (c : char) (t : list (N * N)) : bool :=
  existsb (fun r => (fst r <=? c)%N && (c <=? snd r)%N) t.

(** [str.isspace] on one character (Unicode 14.0, the tables of CPython
    3.11): the characters [str.strip()] removes. *)
Definition WHITESPACE : list (N * N) :=
  [(0x9,0xD);(0x1C,0x20);(0x85,0x85);(0xA0,0xA0);(0x1680,0x1680);
   (0x2000,0x200A);(0x2028,0x2029);(0x202F,0x202F);(0x205F,0x205F);
   (0x3000,0x3000)]%N.

Definition isspace_char (c : char) : bool := in_ranges c WHITESPACE.

Fixpoint lstrip (s : str) : str :=
  match s with
  | [] => []
  | c :: s' => if isspace_char c then lstrip s' else s
  end.

Definition rstrip (s : str) : str := rev (lstrip (rev s)).

(** [s.strip()] *)
Definition strip (s : str) : str := rstrip (lstrip s).

(** Characters with Numeric_Type=Digit or Numeric_Type=Decimal: the ones
    [str.isdigit] accepts (Unicode 14.0). *)
Definition DIGITS : list (N * N) :=
  [(0x30,0x39);(0xB2,0xB3);(0xB9,0xB9);(0x660,0x669);(0x6F0,0x6F9);
   (0x7C0,0x7C9);(0x966,0x96F);(0x9E6,0x9EF);(0xA66,0xA6F);(0xAE6,0xAEF);
   (0xB66,0xB6F);(0xBE6,0xBEF);(0xC66,0xC6F);(0xCE6,0xCEF);(0xD66,0xD6F);
   (0xDE6,0xDEF);(0xE50,0xE59);(0xED0,0xED9);(0xF20,0xF29);(0x1040,0x1049);
   (0x1090,0x1099);(0x1369,0x1371);(0x17E0,0x17E9);(0x1810,0x1819);
   (0x1946,0x194F);(0x19D0,0x19DA);(0x1A80,0x1A89);(0x1A90,0x1A99);
   (0x1B50,0x1B59);(0x1BB0,0x1BB9);(0x1C40,0x1C49);(0x1C50,0x1C59);
   (0x2070,0x2070);(0x2074,0x2079);(0x2080,0x2089);(0x2460,0x2468);
   (0x2474,0x247C);(0x2488,0x2490);(0x24EA,0x24EA);(0x24F5,0x24FD);
   (0x24FF,0x24FF);(0x2776,0x277E);(0x2780,0x2788);(0x278A,0x2792);
   (0xA620,0xA629);(0xA8D0,0xA8D9);(0xA900,0xA909);(0xA9D0,0xA9D9);
   (0xA9F0,0xA9F9);(0xAA50,0xAA59);(0xABF0,0xABF9);(0xFF10,0xFF19);
   (0x104A0,0x104A9);(0x10A40,0x10A43);(0x10D30,0x10D39);(0x10E60,0x10E68);
   (0x11052,0x1105A);(0x11066,0x1106F);(0x110F0,0x110F9);(0x11136,0x1113F);
   (0x111D0,0x111D9);(0x112F0,0x112F9);(0x11450,0x11459);(0x114D0,0x114D9);
   (0x11650,0x11659);(0x116C0,0x116C9);(0x11730,0x11739);(0x118E0,0x118E9);
   (0x11950,0x11959);(0x11C50,0x11C59);(0x11D50,0x11D59);(0x11DA0,0x11DA9);
   (0x16A60,0x16A69);(0x16AC0,0x16AC9);(0x16B50,0x16B59);(0x1D7CE,0x1D7FF);
   (0x1E140,0x1E149);(0x1E2F0,0x1E2F9);(0x1E950,0x1E959);(0x1F100,0x1F10A);
   (0x1FBF0,0x1FBF9)]%N.

Definition isdigit_char (c : char) : bool := in_ranges c DIGITS.

(** [s.isdigit()]: at least one character, and all of them digits. *)
Definition isdigit (s : str) : bool :=
  match s with
  | [] => false
  | _ => forallb isdigit_char s
  end.

(** First code points of the blocks of ten decimal digits (category Nd):
    what the regular expression [\d] matches and [int] converts. *)
Definition DECIMAL_BLOCKS : list N :=
  [0x30;0x660;0x6F0;0x7C0;0x966;0x9E6;0xA66;0xAE6;0xB66;0xBE6;0xC66;0xCE6;
   0xD66;0xDE6;0xE50;0xED0;0xF20;0x1040;0x1090;0x17E0;0x1810;0x1946;0x19D0;
   0x1A80;0x1A90;0x1B50;0x1BB0;0x1C40;0x1C50;0xA620;0xA8D0;0xA900;0xA9D0;
   0xA9F0;0xAA50;0xABF0;0xFF10;0x104A0;0x10D30;0x11066;0x110F0;0x11136;
   0x111D0;0x112F0;0x11450;0x114D0;0x11650;0x116C0;0x11730;0x118E0;0x11950;
   0x11C50;0x11D50;0x11DA0;0x16A60;0x16AC0;0x16B50;0x1D7CE;0x1D7D8;0x1D7E2;
   0x1D7EC;0x1D7F6;0x1E140;0x1E2F0;0x1E950;0x1FBF0]%N.

(** The value of a decimal digit character, if it is one. *)
Definition decimal_value (c : char) : option N :=
  match find (fun b => (b <=? c)%N && (c <? b + 10)%N) DECIMAL_BLOCKS with
  | Some b => Some (c - b)%N
  | None => None
  end.

(** [s.startswith(p)] *)
Fixpoint startswith (p s : str) : bool :=
  match p, s with
  | [], _ => true
  | _ :: _, [] => false
  | a :: p', b :: s' => (a =? b)%N && startswith p' s'
  end.

(** [p in s] *)
Fixpoint contains (p s : str) : bool :=
  startswith p s ||
  match s with
  | [] => false
  | _ :: s' => contains p s'
  end.

(** [sep.join(parts)] *)
Fixpoint join (sep : str) (parts : list str) : str :=
  match parts with
  | [] => []
  | [p] => p
  | p :: ps => p ++ sep ++ join sep ps
  end.

Definition cons_head (c : char) (ps : list str) : list str :=
  match ps with
  | [] => [[c]]
  | p :: ps' => (c :: p) :: ps'
  end.

(** [s.split("\n\n")]: the pieces between successive, non-overlapping
    occurrences of the separator, scanning from the left. *)
Fixpoint split_nlnl (s : str) : list str :=
  match s with
  | [] => [[]]
  | c :: s' =>
      match s' with
      | c' :: s'' =>
          if (c =? NL)%N && (c' =? NL)%N then [] :: split_nlnl s''
          else cons_head c (split_nlnl s')
      | [] => cons_head c (split_nlnl s')
      end
  end.

(** [str(n)] for a non-negative integer. *)
Definition digit_char (d : N) : char := (0x30 + d)%N.

Fixpoint str_of_pos_fuel (fuel : nat) (n : N) (acc : str) : str :=
  match fuel with
  | O => acc
  | S fuel' =>
      let acc' := digit_char (n mod 10) :: acc in
      if (n / 10 =? 0)%N then acc' else str_of_pos_fuel fuel' (n / 10)%N acc'
  end.

Definition str_of_N (n : N) : str :=
  str_of_pos_fuel (S (N.to_nat (N.log2 n))) n [].

End Str.
Import Str.

(** ** [datetime] values and [parse_date] *)

Module Dates.

(** The result of [datetime.strptime(s, "%Y/%m/%d")]: a calendar date; the
    time of day is always midnight and takes no part in comparisons. *)
Record datetime := mkdate { year : N; month : N; day : N }.

(** [datetime.min], that is [datetime(1, 1, 1, 0, 0)]. *)
Definition datetime_min : datetime := mkdate 1 1 1.

(** [a < b] on [datetime]. *)
Definition dt_ltb (a b : datetime) : bool :=
  (year a <? year b)%N ||
  ((year a =? year b)%N &&
   ((month a <? month b)%N ||
    ((month a =? month b)%N && (day a <? day b)%N))).

Definition is_leap (y : N) : bool :=
  ((y mod 4 =? 0)%N && negb (y mod 100 =? 0)%N) || (y mod 400 =? 0)%N.

Definition days_in_month (y m : N) : N :=
  if (m =? 2)%N then (if is_leap y then 29 else 28)%N
  else if (m =? 4)%N || (m =? 6)%N || (m =? 9)%N || (m =? 11)%N then 30%N
  else 31%N.

Definition in_range (lo hi c : N) : bool := (lo <=? c)%N && (c <=? hi)%N.

Definition expect (c : char) (s : str) : option str :=
  match s with
  | x :: r => if (x =? c)%N then Some r else None
  | [] => None
  end.

(** The directive [%Y] is the pattern [\d\d\d\d]. *)
Definition re_Y (s : str) : option (N * str) :=
  match s with
  | a :: b :: c :: d :: r =>
      match decimal_value a, decimal_value b, decimal_value c, decimal_value d with
      | Some a', Some b', Some c', Some d' =>
          Some (1000 * a' + 100 * b' + 10 * c' + d', r)%N
      | _, _, _, _ => None
      end
  | _ => None
  end.

(** The directive [%m] is [1[0-2]|0[1-9]|[1-9]]: the matches of the
    alternatives, in the order the regular expression engine tries them. *)
Definition re_m (s : str) : list (N * str) :=
  (match s with
   | a :: b :: r =>
       if (a =? 0x31)%N && in_range 0x30 0x32 b then [(10 + (b - 0x30), r)%N] else []
   | _ => []
   end) ++
  (match s with
   | a :: b :: r =>
       if (a =? 0x30)%N && in_range 0x31 0x39 b then [((b - 0x30)%N, r)] else []
   | _ => []
   end) ++
  (match s with
   | a :: r => if in_range 0x31 0x39 a then [((a - 0x30)%N, r)] else []
   | _ => []
   end).

(** The directive [%d] is [3[01]|[12]\d|0[1-9]|[1-9]| [1-9]]. *)
Definition re_d (s : str) : list (N * str) :=
  (match s with
   | a :: b :: r =>
       if (a =? 0x33)%N && in_range 0x30 0x31 b then [(30 + (b - 0x30), r)%N] else []
   | _ => []
   end) ++
  (match s with
   | a :: b :: r =>
       if in_range 0x31 0x32 a then
         match decimal_value b with
         | Some b' => [(10 * (a - 0x30) + b', r)%N]
         | None => []
         end
       else []
   | _ => []
   end) ++
  (match s with
   | a :: b :: r =>
       if (a =? 0x30)%N && in_range 0x31 0x39 b then [((b - 0x30)%N, r)] else []
   | _ => []
   end) ++
  (match s with
   | a :: r => if in_range 0x31 0x39 a then [((a - 0x30)%N, r)] else []
   | _ => []
   end) ++
  (match s with
   | a :: b :: r =>
       if (a =? SPACE)%N && in_range 0x31 0x39 b then [((b - 0x30)%N, r)] else []
   | _ => []
   end).

(** After the month the pattern continues with [/] and the day; the first
    alternative of the month for which the rest matches is the one taken. *)
Fixpoint re_month_day (ms : list (N * str)) : option (N * N * str) :=
  match ms with
  | [] => None
  | (m, s) :: ms' =>
      match expect SLASH s with
      | Some s' =>
          match re_d s' with
          | (d, rest) :: _ => Some (m, d, rest)
          | [] => re_month_day ms'
          end
      | None => re_month_day ms'
      end
  end.

(** [datetime.strptime(s, "%Y/%m/%d")]; every [ValueError] is [None]: the
    text does not match, text remains after the match, or the date does
    not exist. *)
Definition strptime (s : str) : option datetime :=
  match re_Y s with
  | None => None
  | Some (y, s1) =>
      match expect SLASH s1 with
      | None => None
      | Some s2 =>
          match re_month_day (re_m s2) with
          | None => None
          | Some (m, d, rest) =>
              match rest with
              | _ :: _ => None
              | [] =>
                  if (y =? 0)%N then None
                  else if (days_in_month y m <? d)%N then None
                  else Some (mkdate y m d)
              end
          end
      end
  end.

(** [StudentDataFetcher.parse_date] *)
Definition parse_date (date_str : str) : option datetime :=
  strptime (strip date_str).

(** The sort key [x["parsed_date"] or datetime.min]; a [datetime] is never
    falsy, so only [None] is replaced. *)
Definition date_key (parsed_date : option datetime) : datetime :=
  match parsed_date with
  | Some d => d
  | None => datetime_min
  end.

End Dates.
Import Dates.

(** ** The fetcher: classification and reconciliation *)

Module Fetcher.

(** The built-in [float(x)] goes through the conversion protocol of the
    type of [x]; [None] stands for the exception raised when [x] cannot be
    converted ([ValueError], [TypeError], [OverflowError]). *)
Class Floatable (A : Type) := py_float : A -> option float.

(** [float(x)] of a float is [x] itself. *)
#[export] Instance float_Floatable : Floatable float := fun f => Some f.

(** [float(None)] raises [TypeError]. *)
#[export] Instance none_Floatable : Floatable unit := fun _ => None.

Definition STATUS_PASS : str := utf8 "‚úÖ ŸÜÿßÿ¨ÿ≠".
Definition STATUS_FAIL : str := utf8 "‚ùå ÿ±ÿßÿ≥ÿ®".
Definition STATUS_UNKNOWN : str := utf8 "‚ùì ÿ∫Ÿäÿ± ŸÖÿπÿ±ŸàŸÅ".

(** [StudentDataFetcher.get_status]; the bare [except] turns every failure
    of the conversion into the third answer. *)
Definition get_status {A : Type} `{Floatable A} (mark : A) : str :=
  match py_float mark with
  | Some mark_float =>
      if (60 <=? mark_float)%float then STATUS_PASS else STATUS_FAIL
  | None => STATUS_UNKNOWN
  end.

(** One dictionary of [subjects_data]; the entries of [final_subjects]
    have the same keys. *)
Record subject := mksubject {
  name : str;
  mark : float;
  status : str;
  semester : str;
  mark_display : str;
  release_date : str;
  parsed_date : option datetime
}.

(** The dictionary appended to [subjects_data] for one table row, once
    [float(mark_clean)] has given [mark]. *)
Definition row_entry (subject_name semester mark_str : str) (mark : float)
    (release_date : str) : subject :=
  {| name := subject_name;
     mark := mark;
     status := get_status mark;
     semester := semester;
     mark_display := mark_str;
     release_date := release_date;
     parsed_date := parse_date release_date |}.

(** [subject_groups[k].append(v)] on a [defaultdict(list)]: a dictionary
    keeps its keys in insertion order. *)
Fixpoint groups_append (groups : list (str * list subject)) (k : str)
    (v : subject) : list (str * list subject) :=
  match groups with
  | [] => [(k, [v])]
  | (k', vs) :: groups' =>
      if str_eqb k' k then (k', vs ++ [v]) :: groups'
      else (k', vs) :: groups_append groups' k v
  end.

Definition subject_groups (subjects_data : list subject)
    : list (str * list subject) :=
  fold_left (fun groups s => groups_append groups (name s) s) subjects_data [].

(** [sorted(l, key=...)] and [l.sort(key=...)]: stable, comparing keys
    with [<] only. An element goes in front of the first one that is not
    smaller, so equal keys keep their order. *)
Section Sorting.
Variables (A K : Type) (key : A -> K) (ltb : K -> K -> bool).

Fixpoint insert_sorted (x : A) (l : list A) : list A :=
  match l with
  | [] => [x]
  | y :: l' =>
      if ltb (key y) (key x) then y :: insert_sorted x l' else x :: y :: l'
  end.

Fixpoint sorted (l : list A) : list A :=
  match l with
  | [] => []
  | x :: l' => insert_sorted x (sorted l')
  end.

(** [max(l, key=...)]: the first element is kept until a later one has a
    strictly greater key; [None] is the [ValueError] on an empty list. *)
Fixpoint max_from (best : A) (l : list A) : A :=
  match l with
  | [] => best
  | x :: l' => max_from (if ltb (key best) (key x) then x else best) l'
  end.

Definition py_max (l : list A) : option A :=
  match l with
  | [] => None
  | x :: l' => Some (max_from x l')
  end.

(** [a] does not come after [b] in the order of the keys. *)
Definition key_le (a b : A) : Prop := ltb (key b) (key a) = false.

End Sorting.

Definition sort_key (x : subject) : datetime := date_key (parsed_date x).

(** The body of the loop over [subject_groups.items()]: the entry appended
    to [final_subjects]; [None] is an exception ([IndexError] for
    [sorted_by_date[0]], [ValueError] for [max]) on an empty group. *)
Definition combine_group (subject_name : str) (occurrences : list subject)
    : option subject :=
  let sorted_by_date := sorted sort_key dt_ltb occurrences in
  match sorted_by_date with
  | [] => None
  | oldest :: _ =>
      match py_max mark PrimFloat.ltb occurrences with
      | None => None
      | Some newest_mark_entry =>
          Some {| name := subject_name;
                  mark := mark newest_mark_entry;
                  status := get_status (mark newest_mark_entry);
                  semester := semester oldest;
                  mark_display := mark_display newest_mark_entry;
                  release_date := release_date oldest;
                  parsed_date := parsed_date oldest |}
      end
  end.

Fixpoint final_subjects_of (groups : list (str * list subject))
    : option (list subject) :=
  match groups with
  | [] => Some []
  | (subject_name, occurrences) :: groups' =>
      match combine_group subject_name occurrences with
      | None => None
      | Some entry =>
          match final_subjects_of groups' with
          | None => None
          | Some rest => Some (entry :: rest)
          end
      end
  end.

(** Lines 131-163 of [fetch_student_data]: grouping, one entry per group,
    and the final sort. [None] is an exception inside the [try]. *)
Definition process_duplicates (subjects_data : list subject)
    : option (list subject) :=
  match final_subjects_of (subject_groups subjects_data) with
  | None => None
  | Some final_subjects => Some (sorted sort_key dt_ltb final_subjects)
  end.

(** The returned dictionary. *)
Record student_data := mkstudent {
  sd_name : str;
  sd_year : str;
  sd_id : str;
  sd_subjects : list subject
}.

(** What the request and the HTML extraction (lines 75-129) give for one
    identifier: the name, the year and [subjects_data]. *)
Record scraped := mkscraped {
  sc_name : str;
  sc_year : str;
  sc_subjects_data : list subject
}.

(** [StudentDataFetcher.fetch_student_data] over the page obtained for
    [student_id]; [None] for [page] is a failed request or a page without
    a marks table, and every exception gives [None]. *)
Definition fetch_student_data (page : option scraped) (student_id : str)
    : option student_data :=
  match page with
  | None => None
  | Some pg =>
      match process_duplicates (sc_subjects_data pg) with
      | None => None
      | Some final_subjects =>
          Some {| sd_name := sc_name pg;
                  sd_year := sc_year pg;
                  sd_id := student_id;
                  sd_subjects := final_subjects |}
      end
  end.

End Fetcher.
Import Fetcher.

(** ** The bot: report formatting and the message handler *)

Module Bot.

(** [sum(...)] over floats: the integer start value [0] is converted by
    the first addition, then the terms are added from the left (CPython
    up to 3.11; later versions compensate the rounding errors of the
    additions, which bears on the digits of the average only). *)
Definition py_sum (l : list float) : float := fold_left PrimFloat.add l 0%float.

(** [float(n)] for the length of a list. *)
Definition float_of_nat (n : nat) : float :=
  PrimFloat.of_uint63 (Uint63.of_Z (Z.of_nat n)).

(** Division of [num] by [den] rounded to the nearest integer, ties to
    even. *)
Definition round_half_even_div (num den : N) : N :=
  let q := (num / den)%N in
  let r := (num mod den)%N in
  if (den <? 2 * r)%N || ((2 * r =? den)%N && N.odd q) then (q + 1)%N else q.

(** The format specification [.1f]: the exact value of the float rounded
    to one decimal, ties to even. *)
Definition format_1f (x : float) : str :=
  match Prim2SF x with
  | S754_nan => utf8 "nan"
  | S754_infinity s => if s then utf8 "-inf" else utf8 "inf"
  | S754_zero s => if s then utf8 "-0.0" else utf8 "0.0"
  | S754_finite s m e =>
      let tenths :=
        match e with
        | Z0 => (10 * Npos m)%N
        | Zpos p => (10 * Npos m * 2 ^ Npos p)%N
        | Zneg p => round_half_even_div (10 * Npos m) (2 ^ Npos p)
        end in
      (if s then utf8 "-" else []) ++
      str_of_N (tenths / 10) ++ utf8 "." ++ [digit_char (tenths mod 10)]
  end.

Definition NO_DATA_MESSAGE : str :=
  utf8 "‚ùå ŸÑŸÖ Ÿäÿ™ŸÖ ÿßŸÑÿπÿ´Ÿàÿ± ÿπŸÑŸâ ÿ®ŸäÿßŸÜÿßÿ™ ŸÑŸÑÿ∑ÿßŸÑÿ®".

Definition book_emojis : list str :=
  [utf8 "üìï"; utf8 "üìó"; utf8 "üìò"; utf8 "üìô"].

Definition CHECK : str := utf8 "‚úÖ ".
Definition CROSS : str := utf8 "‚ùå ".
Definition SEPARATOR : str := utf8 "‚Äî‚Äî‚Äî‚Äî‚Äî‚Äî‚Äî".

(** [passed_count]: [sum(1 for s in subjects if s["mark"] >= 60)]. *)
Definition passed_count (subjects : list subject) : nat :=
  length (filter (fun s => (60 <=? mark s)%float) subjects).

Definition rating_of (avg_mark : float) : str :=
  if (85 <=? avg_mark)%float then utf8 "ŸÖŸÖÿ™ÿßÿ≤ üèÜ"
  else if (75 <=? avg_mark)%float then utf8 "ÿ¨ŸäÿØ ÿ¨ÿØÿßŸã ü•à"
  else if (65 <=? avg_mark)%float then utf8 "ÿ¨ŸäÿØ ü•â"
  else utf8 "ŸÖŸÇÿ®ŸàŸÑ ‚ö†Ô∏è".

(** The last line of the report, with the two counts. *)
Definition counts_line (passed_count failed_count : nat) : str :=
  utf8 "‚úì ÿßŸÑŸÜÿßÿ¨ÿ≠: " ++ str_of_N (N.of_nat passed_count) ++
  utf8 "  ‚úó ÿßŸÑÿ±ÿßÿ≥ÿ®: " ++ str_of_N (N.of_nat failed_count).

(** The local [mark_display] of the loop: the annotated mark. *)
Definition annotated_mark (subject : subject) : str :=
  if (60 <=? mark subject)%float then CHECK ++ mark_display subject
  else CROSS ++ mark_display subject.

Definition opt_str_eqb (a : str) (b : option str) : bool :=
  match b with
  | Some b' => str_eqb a b'
  | None => false
  end.

(** The loop [for i, subject in enumerate(student_data["subjects"])],
    from index [i] on, with the value of [current_semester] so far. *)
Fixpoint subject_lines (i : nat) (current_semester : option str)
    (subjects : list subject) : list str :=
  match subjects with
  | [] => []
  | subject :: rest =>
      let semester_num :=
        if contains (utf8 "1") (semester subject) then utf8 "1" else utf8 "2" in
      let changed := negb (opt_str_eqb semester_num current_semester) in
      let current_semester' :=
        if changed then Some semester_num else current_semester in
      let book_emoji := nth (i mod 4) book_emojis [] in
      (if changed then [utf8 "*ÿßŸÑŸÅÿµŸÑ " ++ semester_num ++ utf8 "*"] else []) ++
      [book_emoji ++ utf8 " " ++ name subject;
       utf8 "   " ++ annotated_mark subject;
       SEPARATOR] ++
      subject_lines (S i) current_semester' rest
  end.

Definition report_lines (d : student_data) : list str :=
  let subjects := sd_subjects d in
  let total_mark := py_sum (map mark subjects) in
  let avg_mark := (total_mark / float_of_nat (length subjects))%float in
  let passed := passed_count subjects in
  let failed_count := (length subjects - passed)%nat in
  let rating := rating_of avg_mark in
  [utf8 "üë§ *" ++ sd_name d ++ utf8 "*";
   utf8 "üÜî " ++ sd_id d;
   []] ++
  subject_lines 0 None subjects ++
  [[];
   utf8 "üìä ÿßŸÑŸÖÿπÿØŸÑ: *" ++ format_1f avg_mark ++ utf8 "* ¬∑ " ++ rating;
   counts_line passed failed_count].

(** [TelegramBot.format_student_message] *)
Definition format_student_message (student_data : option student_data) : str :=
  match student_data with
  | None => NO_DATA_MESSAGE
  | Some d =>
      match sd_subjects d with
      | [] => NO_DATA_MESSAGE
      | _ :: _ => join [NL] (report_lines d)
      end
  end.

(** What the handler does to the outside, in order. *)
Inductive event :=
| ReplyText (text : str)
| SendChatAction
| HttpGet (student_id : str).

(** Handlers run in a writer monad over the events. *)
Definition io (A : Type) : Type := (list event * A)%type.

Definition ret {A : Type} (a : A) : io A := ([], a).

Definition bind {A B : Type} (c : io A) (k : A -> io B) : io B :=
  let (es, a) := c in
  let (es', b) := k a in
  (es ++ es', b).

Notation "x <- c ;; k" := (bind c (fun x => k))
  (at level 61, c at next level, right associativity).
Notation "c ;; k" := (bind c (fun _ => k))
  (at level 61, right associativity).

(** [await update.message.reply_text(text, parse_mode="Markdown")] *)
Definition reply_text (text : str) : io unit := ([ReplyText text], tt).

Definition send_chat_action : io unit := ([SendChatAction], tt).

(** [self.fetcher.fetch_student_data(student_id)]: the request is made,
    and [web] tells what the site returns for an identifier. *)
Definition fetch (web : str -> option scraped) (student_id : str)
    : io (option student_data) :=
  ([HttpGet student_id], fetch_student_data (web student_id) student_id).

Definition INVALID_ID_MESSAGE : str :=
  utf8 "‚ùå ÿßŸÑÿ±ŸÇŸÖ ÿßŸÑÿ¨ÿßŸÖÿπŸä Ÿäÿ¨ÿ® ÿ£ŸÜ ŸäŸÉŸàŸÜ ŸÖŸÉŸàŸÜÿßŸã ŸÖŸÜ ÿ£ÿ±ŸÇÿßŸÖ ŸÅŸÇÿ∑" ++
  [NL; NL] ++
  utf8 "üìù *ŸÖÿ´ÿßŸÑ:* `202112345`".
Definition SEARCHING_MESSAGE : str :=
  utf8 "üîç *ÿ¨ÿßÿ±Ÿä ÿßŸÑÿ®ÿ≠ÿ´ ÿπŸÜ ÿ®ŸäÿßŸÜÿßÿ™ ÿßŸÑÿ∑ÿßŸÑÿ®...*".
Definition NOT_FOUND_MESSAGE : str :=
  utf8 "‚ùå ŸÑŸÖ Ÿäÿ™ŸÖ ÿßŸÑÿπÿ´Ÿàÿ± ÿπŸÑŸâ ÿßŸÑÿ∑ÿßŸÑÿ®" ++
  [NL; NL] ++
  utf8 "üîç *ÿ™ÿ£ŸÉÿØ ŸÖŸÜ:*" ++
  utf8 "‚Ä¢ ÿßŸÑÿ±ŸÇŸÖ ÿßŸÑÿ¨ÿßŸÖÿπŸä ÿßŸÑÿµÿ≠Ÿäÿ≠" ++
  utf8 "‚Ä¢ Ÿàÿ¨ŸàÿØ ÿßŸÑÿ∑ÿßŸÑÿ® ŸÅŸä ÿßŸÑŸÜÿ∏ÿßŸÖ" ++
  utf8 "‚Ä¢ ÿßŸÑÿßÿ™ÿµÿßŸÑ ÿ®ÿßŸÑÿ•ŸÜÿ™ÿ±ŸÜÿ™".

Definition LIMIT : nat := 4000.

(** The loop [for part in parts] with the value of [current_message] so
    far; it returns the last [current_message]. *)
Fixpoint send_parts (parts : list str) (current_message : str) : io str :=
  match parts with
  | [] => ret current_message
  | part :: rest =>
      if (LIMIT <? len (current_message ++ part ++ [NL; NL]))%nat then
        (match current_message with
         | [] => ret tt
         | _ :: _ => reply_text current_message
         end) ;;
        send_parts rest (part ++ [NL; NL])
      else send_parts rest (current_message ++ part ++ [NL; NL])
  end.

(** Lines 353-372: the delivery of the formatted message. *)
Definition deliver (formatted_message : str) : io unit :=
  if (LIMIT <? len formatted_message)%nat then
    let parts := split_nlnl formatted_message in
    current_message <- send_parts parts [] ;;
    match current_message with
    | [] => ret tt
    | _ :: _ => reply_text current_message
    end
  else reply_text formatted_message.

(** [TelegramBot.handle_student_id] on the text of the incoming message. *)
Definition handle_student_id (web : str -> option scraped) (text : str)
    : io unit :=
  let student_id := strip text in
  if negb (isdigit student_id) then reply_text INVALID_ID_MESSAGE
  else
    send_chat_action ;;
    reply_text SEARCHING_MESSAGE ;;
    student_data <- fetch web student_id ;;
    match student_data with
    | None => reply_text NOT_FOUND_MESSAGE
    | Some _ =>
        let formatted_message := format_student_message student_data in
        deliver formatted_message
    end.

End Bot.
Import Bot.

(** ** Notions used in the statements *)

(** The comparison of two floats; [None] when one of them is [nan]. *)
Definition fcompare (x y : float) : option comparison :=
  SFcompare (Prim2SF x) (Prim2SF y).

(** Equality of dates. *)
Definition dt_eqb (a b : datetime) : bool :=
  (year a =? year b)%N && (month a =? month b)%N && (day a =? day b)%N.

(** The occurrences of one subject name, in row order. *)
Definition has_name (n : str) (s : subject) : bool := str_eqb (name s) n.

Definition group_of (n : str) (subjects_data : list subject) : list subject :=
  filter (has_name n) subjects_data.

Definition group_entry (l : list subject) (n : str) : str * list subject :=
  (n, group_of n l).

(** The names of a list, each once, in the order of first occurrence. *)
Fixpoint distinct (l : list str) : list str :=
  match l with
  | [] => []
  | x :: l' => x :: filter (fun y => negb (str_eqb y x)) (distinct l')
  end.

(** The position of the first occurrence of a name. *)
Fixpoint first_index (n : str) (names : list str) : nat :=
  match names with
  | [] => 0
  | x :: names' => if str_eqb x n then 0 else S (first_index n names')
  end.

(** [a] stands somewhere before [b] in [l]. *)
Definition placed_before {A : Type} (a b : A) (l : list A) : Prop :=
  exists l1 l2 l3, l = l1 ++ a :: l2 ++ b :: l3.

(** The list is in ascending order of the sort key. *)
Definition sorted_by_date (out : list subject) : Prop :=
  StronglySorted (key_le sort_key dt_ltb) out.

(** The line of the report that shows the mark of a subject, and which of
    the two annotations it starts with. *)
Definition mark_line (s : subject) : str := utf8 "   " ++ annotated_mark s.

Definition carries_check (s : subject) : bool :=
  startswith CHECK (annotated_mark s).

Definition carries_cross (s : subject) : bool :=
  startswith CROSS (annotated_mark s).

(** The events of a run, the texts replied and the requests made. *)
Definition events {A : Type} (c : io A) : list event := fst c.

Definition reply_texts (es : list event) : list str :=
  flat_map (fun e => match e with ReplyText t => [t] | _ => [] end) es.

Definition requests (es : list event) : list str :=
  flat_map (fun e => match e with HttpGet i => [i] | _ => [] end) es.

(** "Consists only of decimal digits", as the interface description words
    the validation: every character is a decimal digit (category Nd). *)
Definition only_decimal_digits (s : str) : bool :=
  forallb (fun c => match decimal_value c with
                    | Some _ => true
                    | None => false
                    end) s.

(** The chunks [deliver] sends for a message, and the parts with the
    separator each of them gets. *)
Definition NLNL : str := [NL; NL].

Definition chunks (formatted_message : str) : list str :=
  reply_texts (events (deliver formatted_message)).

Definition with_separators (parts : list str) : str :=
  concat (map (fun p => p ++ NLNL) parts).

(** A chunk is within the limit, or it is one single part. *)
Definition chunk_ok (parts : list str) (chunk : str) : Prop :=
  (len chunk <= LIMIT)%nat \/ exists p, In p parts /\ chunk = p ++ NLNL.

Definition overlap (r1 r2 : N * N) : bool :=
  (fst r1 <=? snd r2)%N && (fst r2 <=? snd r1)%N.

(** ** Inputs of the examples *)

(** Three occurrences of one subject: marks 55, 90 and 70, released on
    2024/01/10, 2023/09/01 and 2024/03/01. *)
Definition C1_rows : list subject :=
  [row_entry (utf8 "Physics") (utf8 "Semester 2") (utf8 "55") 55 (utf8 "2024/01/10");
   row_entry (utf8 "Physics") (utf8 "Semester 1") (utf8 "90") 90 (utf8 "2023/09/01");
   row_entry (utf8 "Physics") (utf8 "Semester 3") (utf8 "70") 70 (utf8 "2024/03/01")].

(** A subject released on the first day of year 1, then one whose date
    does not parse. *)
Definition C3_rows : list subject :=
  [row_entry (utf8 "Algebra") (utf8 "Semester 1") (utf8 "80") 80 (utf8 "0001/01/01");
   row_entry (utf8 "Physics") (utf8 "Semester 1") (utf8 "70") 70 (utf8 "N/A")].

Definition C3_algebra : subject := nth 0 C3_rows (row_entry [] [] [] 0 []).
Definition C3_physics : subject := nth 1 C3_rows (row_entry [] [] [] 0 []).

(** A subject whose date does not parse, after one with an ordinary date. *)
Definition C3_rows_ok : list subject :=
  [row_entry (utf8 "Algebra") (utf8 "Semester 1") (utf8 "80") 80 (utf8 "2024/01/10");
   row_entry (utf8 "Physics") (utf8 "Semester 1") (utf8 "70") 70 (utf8 "N/A")].

(** Two occurrences tie for the highest mark. *)
Definition C4_rows : list subject :=
  [row_entry (utf8 "Chemistry") (utf8 "Semester 1") (utf8 "70") 70 (utf8 "2023/09/01");
   row_entry (utf8 "Chemistry") (utf8 "Semester 2") (utf8 "90") 90 (utf8 "2024/01/10");
   row_entry (utf8 "Chemistry") (utf8 "Semester 2") (utf8 "90.0") 90 (utf8 "2024/03/01")].

(** Two subjects without a date that parses. *)
Definition C9_rows : list subject :=
  [row_entry (utf8 "Zoology") (utf8 "Semester 1") (utf8 "64") 64 (utf8 "N/A");
   row_entry (utf8 "Anatomy") (utf8 "Semester 1") (utf8 "81") 81 (utf8 "-")].

(** A page with 150 subjects, "Course 1" to "Course 150". *)
Definition C6_row (i : nat) : subject :=
  row_entry (utf8 "Course " ++ str_of_N (N.of_nat (S i)))
    (utf8 "Semester 1") (utf8 "75") 75 (utf8 "2024/01/10").

Definition C6_page : scraped :=
  {| sc_name := utf8 "Student";
     sc_year := utf8 "2024";
     sc_subjects_data := map C6_row (seq 0 150) |}.

Definition C6_web (student_id : str) : option scraped := Some C6_page.

Definition C6_events : list event :=
  events (handle_student_id C6_web (utf8 "202112345")).

Definition C8_student : student_data :=
  {| sd_name := utf8 "Student";
     sd_year := utf8 "2024";
     sd_id := utf8 "202112345";
     sd_subjects := [C6_row 0; C6_row 1] |}.

(** ** The rest of the fetcher: normalisation and extraction *)

Module Extraction.

(** [s.replace(old, new)] for a non-empty [old]: the occurrences of [old]
    are taken from the left and do not overlap; [skip] counts the
    characters of an occurrence still to pass over. *)
Fixpoint replace_go (old new : str) (skip : nat) (s : str) : str :=
  match s with
  | [] => []
  | c :: s' =>
      match skip with
      | S k => replace_go old new k s'
      | O =>
          if startswith old s then new ++ replace_go old new (length old - 1) s'
          else c :: replace_go old new 0 s'
      end
  end.

Definition replace (old new s : str) : str := replace_go old new 0 s.

(** The dictionary [arabic_to_english], in insertion order. *)
Definition arabic_to_english : list (str * str) :=
  [(utf8 "Ÿ†", utf8 "0");
   (utf8 "Ÿ°", utf8 "1");
   (utf8 "Ÿ¢", utf8 "2");
   (utf8 "Ÿ£", utf8 "3");
   (utf8 "Ÿ§", utf8 "4");
   (utf8 "Ÿ•", utf8 "5");
   (utf8 "Ÿ¶", utf8 "6");
   (utf8 "Ÿß", utf8 "7");
   (utf8 "Ÿ®", utf8 "8");
   (utf8 "Ÿ©", utf8 "9")].

(** [StudentDataFetcher.convert_arabic_numbers] *)
Definition convert_arabic_numbers (text : str) : str :=
  strip (fold_left (fun result kv => replace (fst kv) (snd kv) result)
                   arabic_to_english text).

(** The default of the name and of the year. *)
Definition UNKNOWN : str := utf8 "ÿ∫Ÿäÿ± ŸÖÿπÿ±ŸàŸÅ".

(** What [BeautifulSoup] finds in the page: the text of the first
    [span.bottom] if there is one, the texts of the [.panel-heading]
    elements, and the [table.table-striped] tables, each as its rows
    ([tr]) of cell texts ([td]). *)
Record soup := mksoup {
  name_element : option str;
  panel_headings : list str;
  tables : list (list (list str))
}.

Section Rows.
(** [float(mark_clean)] on a string is the conversion of [str]. *)
Context {float_of_str : Floatable str}.

(** The body of the loop over the rows: the dictionary appended for a
    row, or [None] when the row is passed over (fewer than four cells, no
    name, no mark, or a mark on which [float] raises [ValueError]). *)
Definition row_subject (cells : list str) : option subject :=
  if (4 <=? length cells)%nat then
    let subject_name := strip (nth 0 cells []) in
    let semester := strip (nth 1 cells []) in
    let mark_str := strip (nth 2 cells []) in
    let release_date := strip (last cells []) in
    match subject_name, mark_str with
    | _ :: _, _ :: _ =>
        let mark_clean := convert_arabic_numbers mark_str in
        match py_float mark_clean with
        | Some mark =>
            Some (row_entry subject_name semester mark_str mark release_date)
        | None => None
        end
    | _, _ => None
    end
  else None.

(** The loop [for row in ...] filling [subjects_data]. *)
Fixpoint rows_loop (rows : list (list str)) : list subject :=
  match rows with
  | [] => []
  | cells :: rest =>
      match row_subject cells with
      | Some entry => entry :: rows_loop rest
      | None => rows_loop rest
      end
  end.

(** Lines 82-129 of [fetch_student_data]: the name, the year of the last
    heading and the rows of the last table but the first; [None] when the
    page has no table. *)
Definition scrape (page : soup) : option scraped :=
  let name :=
    match name_element page with
    | Some text => strip text
    | None => UNKNOWN
    end in
  let year :=
    match panel_headings page with
    | [] => UNKNOWN
    | _ :: _ => strip (last (panel_headings page) [])
    end in
  match tables page with
  | [] => None
  | _ :: _ =>
      let last_table := last (tables page) [] in
      let rows := last_table in
      Some {| sc_name := name;
              sc_year := year;
              sc_subjects_data := rows_loop (tl rows) |}
  end.

(** [StudentDataFetcher.fetch_student_data] from the response on:
    [None] for [response] is a request that raised, a status that
    [raise_for_status] refuses included. *)
Definition fetch_student_data_from (response : option soup) (student_id : str)
    : option student_data :=
  fetch_student_data
    (match response with
     | Some page => scrape page
     | None => None
     end) student_id.

End Rows.

End Extraction.
Import Extraction.

(** ** The token and the entry point *)

Module Config.

(** [s.split(sep, 1)] for a separator of one character. *)
Fixpoint split_once (sep : char) (s : str) : list str :=
  match s with
  | [] => [[]]
  | c :: s' => if (c =? sep)%N then [[]; s'] else cons_head c (split_once sep s')
  end.

Definition BOT_TOKEN_PREFIX : str := utf8 "BOT_TOKEN=".

(** A value that [if not ...] takes as false: [None] or the empty
    string. *)
Definition falsy (v : option str) : bool :=
  match v with
  | None => true
  | Some [] => true
  | Some (_ :: _) => false
  end.

(** The loop over the lines of the file; the outer [None] is the
    [IndexError] of [line.split("=", 1)[1]], which nothing catches. *)
Fixpoint scan_lines (lines : list str) (token : option str)
    : option (option str) :=
  match lines with
  | [] => Some token
  | line :: rest =>
      if startswith BOT_TOKEN_PREFIX line then
        match nth_error (split_once 0x3D%N line) 1 with
        | Some value => Some (Some (strip value))
        | None => None
        end
      else scan_lines rest token
  end.

(** [get_bot_token]: [env_token] is [os.getenv("BOT_TOKEN")], [dotenv]
    the lines of the file [.env] as iteration gives them, [None] when
    opening it raises [FileNotFoundError]. *)
Definition get_bot_token (env_token : option str) (dotenv : option (list str))
    : option (option str) :=
  let token := env_token in
  if falsy token then
    match dotenv with
    | Some lines => scan_lines lines token
    | None => Some token
    end
  else Some token.










End Config.
Import Config.

(** ** The webhook server ([src/server.py]) *)

Module Server.

(** A value of [json.loads]. *)
Unset Elimination Schemes.
Inductive json :=
| JNull
| JBool (b : bool)
| JInt (z : Z)
| JFloat (f : float)
| JStr (s : str)
| JList (l : list json)
| JDict (items : list (str * json)).
Set Elimination Schemes.

(** [bool(v)] *)
Definition truthy (v : json) : bool :=
  match v with
  | JNull => false
  | JBool b => b
  | JInt z => negb (z =? 0)%Z
  | JFloat f => negb (f =? 0)%float
  | JStr s => match s with [] => false | _ :: _ => true end
  | JList l => match l with [] => false | _ :: _ => true end
  | JDict d => match d with [] => false | _ :: _ => true end
  end.

Fixpoint lookup (key : str) (items : list (str * json)) : json :=
  match items with
  | [] => JNull
  | (k, v) :: items' => if str_eqb k key then v else lookup key items'
  end.

(** [data.get(key)]: the value of the key in a dictionary, [None] of
    Python when the key is absent; the outer [None] is the
    [AttributeError] raised when [data] is no dictionary. *)
Definition py_get (data : json) (key : str) : option json :=
  match data with
  | JDict items => Some (lookup key items)
  | _ => None
  end.

Inductive exn :=
| HTTPException (status_code : nat) (detail : str)
| OtherException.

(** The calls on the bot's application. *)
Inductive call :=
| SetWebhook (url : json)
| DeleteWebhook
| ProcessUpdate (update_data : json).

(** What the client gets: a JSON body or an empty response with status
    200, or the status and detail of an [HTTPException]. *)
Inductive response :=
| Body200 (body : json)
| Empty200
| Error (status_code : nat) (detail : str).

(** An endpoint gives the calls it made and its response. *)
Definition served : Type := (list call * response)%type.

(** The result of a [try] body: the calls made, and the value returned or
    the exception raised. *)
Definition attempt (A : Type) : Type := (list call * (exn + A))%type.

Definition NOT_INITIALIZED : str := utf8 "Bot not initialized".

Section Endpoints.
(** [bot_instance] tells whether the global is set; [de_json] tells for
    which data [Update.de_json] returns and [telegram] which calls on the
    application return; they raise otherwise. *)
Variables (bot_instance : bool) (de_json : json -> bool)
          (telegram : call -> bool).

Definition call_bot (c : call) : attempt unit :=
  ([c], if telegram c then inr tt else inl OtherException).

(** The [try] body of [set_webhook]; [request_json] is the value of
    [await request.json()], [None] when it raises, and [env_url] is
    [os.getenv("WEBHOOK_URL")]. *)
Definition set_webhook_body (request_json : option json) (env_url : option str)
    : attempt json :=
  match request_json with
  | None => ([], inl OtherException)
  | Some data =>
      match py_get data (utf8 "webhook_url") with
      | None => ([], inl OtherException)
      | Some webhook_url =>
          let resolved : exn + json :=
            if truthy webhook_url then inr webhook_url
            else
              match env_url with
              | Some (c :: u) => inr (JStr (c :: u))
              | _ =>
                  inl (HTTPException 400
                         (utf8 "webhook_url required in request body or WEBHOOK_URL environment variable"))
              end in
          match resolved with
          | inl e => ([], inl e)
          | inr webhook_url =>
              let (calls, r) := call_bot (SetWebhook webhook_url) in
              match r with
              | inl e => (calls, inl e)
              | inr _ =>
                  (calls,
                   inr (JDict [(utf8 "status", JStr (utf8 "success"));
                               (utf8 "webhook_url", webhook_url)]))
              end
          end
      end
  end.

(** [except Exception as e: ... raise HTTPException(status_code=500, ...)]
    around a [try] body: every exception, an [HTTPException] included, is
    replaced. *)
Definition guarded (detail : str) (a : attempt response) : served :=
  match a with
  | (calls, inr r) => (calls, r)
  | (calls, inl _) => (calls, Error 500 detail)
  end.

Definition map_attempt {A B : Type} (f : A -> B) (a : attempt A) : attempt B :=
  match a with
  | (calls, inr x) => (calls, inr (f x))
  | (calls, inl e) => (calls, inl e)
  end.

(** [set_webhook] *)
Definition set_webhook (request_json : option json) (env_url : option str)
    : served :=
  if negb bot_instance then ([], Error 500 NOT_INITIALIZED)
  else
    guarded (utf8 "Failed to set webhook")
      (map_attempt Body200 (set_webhook_body request_json env_url)).

(** [webhook]; [update_data] is [json.loads(body.decode("utf-8"))],
    [None] when it raises. *)
Definition webhook (update_data : option json) : served :=
  if negb bot_instance then ([], Error 500 NOT_INITIALIZED)
  else
    guarded (utf8 "Internal server error")
      (match update_data with
       | None => ([], inl OtherException)
       | Some data =>
           if de_json data then
             map_attempt (fun _ => Empty200) (call_bot (ProcessUpdate data))
           else ([], inl OtherException)
       end).

(** [delete_webhook] *)
Definition delete_webhook : served :=
  if negb bot_instance then ([], Error 500 NOT_INITIALIZED)
  else
    guarded (utf8 "Failed to delete webhook")
      (map_attempt
         (fun _ => Body200 (JDict [(utf8 "status", JStr (utf8 "success"));
                                   (utf8 "message", JStr (utf8 "Webhook deleted"))]))
         (call_bot DeleteWebhook)).

(** [health_check] *)
Definition health_check : json :=
  JDict [(utf8 "status", JStr (utf8 "healthy"));
         (utf8 "bot_initialized", JBool bot_instance)].

End Endpoints.

End Server.
Import Server.

(** ** [float] of a string *)

Module PyFloat.

(** The characters are first brought to ASCII: a character below 127
    stays, whitespace becomes a space, a decimal digit becomes its ASCII
    digit, and at any other character the text is cut and ends in [?]. *)
Fixpoint to_ascii (s : str) : str :=
  match s with
  | [] => []
  | c :: s' =>
      if (c <? 127)%N then c :: to_ascii s'
      else if isspace_char c then SPACE :: to_ascii s'
      else
        match decimal_value c with
        | Some d => digit_char d :: to_ascii s'
        | None => [0x3F%N]
        end
  end.

(** The whitespace of the C locale. *)
Definition c_isspace (c : char) : bool :=
  (c =? 0x20)%N || ((0x9 <=? c)%N && (c <=? 0xD)%N).

Fixpoint c_lstrip (s : str) : str :=
  match s with
  | [] => []
  | c :: s' => if c_isspace c then c_lstrip s' else s
  end.

Definition c_strip (s : str) : str := rev (c_lstrip (rev (c_lstrip s))).

Definition is_digit (c : char) : bool := (0x30 <=? c)%N && (c <=? 0x39)%N.

(** Underscores go away when each stands between two digits; otherwise
    the text is refused. [prev] is the character before. *)
Fixpoint drop_underscores (prev : option char) (s : str) : option str :=
  match s with
  | [] =>
      match prev with
      | Some 0x5F%N => None
      | _ => Some []
      end
  | c :: s' =>
      if (c =? 0x5F)%N then
        match prev with
        | Some p => if is_digit p then drop_underscores (Some c) s' else None
        | None => None
        end
      else
        match prev with
        | Some 0x5F%N =>
            if is_digit c then option_map (cons c) (drop_underscores (Some c) s')
            else None
        | _ => option_map (cons c) (drop_underscores (Some c) s')
        end
  end.

(** A run of digits at the front: its value, the number of digits and
    what follows. *)
Fixpoint digits_go (acc : N) (count : nat) (s : str) : N * nat * str :=
  match s with
  | c :: s' =>
      if is_digit c then digits_go (10 * acc + (c - 0x30))%N (S count) s'
      else (acc, count, s)
  | [] => (acc, count, s)
  end.

Definition lower (c : char) : char :=
  if (0x41 <=? c)%N && (c <=? 0x5A)%N then (c + 32)%N else c.

Definition sign_of (s : str) : bool * str :=
  match s with
  | 0x2D%N :: s' => (true, s')
  | 0x2B%N :: s' => (false, s')
  | _ => (false, s)
  end.

(** The float nearest to [num / den], ties to the even mantissa:
    infinite beyond the largest float, subnormal or zero below the
    smallest normal one. *)
Definition nearest (negative : bool) (num den : N) : float :=
  if (num =? 0)%N then (if negative then (-0)%float else 0%float)
  else
    let e := (Z.of_N (N.log2 num) - Z.of_N (N.log2 den))%Z in
    let e := if (num * 2 ^ Z.to_N (- e) <? den * 2 ^ Z.to_N e)%N
             then (e - 1)%Z else e in
    let shift := Z.min (52 - e) 1074 in
    let q := round_half_even_div (num * 2 ^ Z.to_N shift)
                                 (den * 2 ^ Z.to_N (- shift)) in
    let x :=
      if (1024 <? e)%Z then infinity
      else Z.ldexp (PrimFloat.of_uint63 (Uint63.of_Z (Z.of_N q))) (- shift) in
    if negative then (- x)%float else x.

(** The number after the sign: [inf], [infinity] or [nan] in any case,
    or digits with an optional point and an optional exponent, one digit
    at least before the exponent; nothing may follow. *)
Definition parse_unsigned (negative : bool) (s : str) : option float :=
  let l := map lower s in
  if list_eq_dec N.eq_dec l (utf8 "inf") then
    Some (if negative then neg_infinity else infinity)
  else if list_eq_dec N.eq_dec l (utf8 "infinity") then
    Some (if negative then neg_infinity else infinity)
  else if list_eq_dec N.eq_dec l (utf8 "nan") then Some nan
  else
    let '(int_part, n_int, s1) := digits_go 0 0 s in
    let '(mantissa, n_frac, s2) :=
      match s1 with
      | 0x2E%N :: s1' => digits_go int_part 0 s1'
      | _ => (int_part, 0%nat, s1)
      end in
    if (n_int + n_frac =? 0)%nat then None
    else
      let '(exponent, s3) :=
        match s2 with
        | c :: s2' =>
            if (lower c =? 0x65)%N then
              let (neg_exp, s2'') := sign_of s2' in
              let '(e, n_exp, rest) := digits_go 0 0 s2'' in
              if (n_exp =? 0)%nat then (0%Z, s2)
              else ((if neg_exp then - Z.of_N e else Z.of_N e)%Z, rest)
            else (0%Z, s2)
        | [] => (0%Z, s2)
        end in
      match s3 with
      | _ :: _ => None
      | [] =>
          let e10 := (exponent - Z.of_nat n_frac)%Z in
          Some (nearest negative (mantissa * 10 ^ Z.to_N e10)
                                 (10 ^ Z.to_N (- e10)))
      end.

(** [float(s)] for a string; [None] is [ValueError]. *)
Definition float_of_str (s : str) : option float :=
  let t := c_strip (to_ascii s) in
  match (if existsb (N.eqb 0x5F) t then drop_underscores None t else Some t) with
  | None => None
  | Some u => let (negative, v) := sign_of u in parse_unsigned negative v
  end.

End PyFloat.

(** [float(x)] of a string. *)
#[export] Instance str_Floatable : Floatable str := PyFloat.float_of_str.

(** ** Notions used in the further statements *)

(** What the extraction establishes for an entry: a name and a mark
    string that are not empty and carry no surrounding whitespace, the
    mark that [float] gives for the normalised mark string, the status of
    that mark and the parsed form of the date string. *)
Definition well_formed {float_of_str : Floatable str} (e : subject) : Prop :=
  name e <> [] /\ strip (name e) = name e /\
  mark_display e <> [] /\ strip (mark_display e) = mark_display e /\
  py_float (convert_arabic_numbers (mark_display e)) = Some (mark e) /\
  status e = get_status (mark e) /\
  strip (release_date e) = release_date e /\
  parsed_date e = parse_date (release_date e).

(** Two characters next to each other somewhere in a string. *)
Fixpoint adjacent (a b : char) (s : str) : bool :=
  match s with
  | [] => false
  | c :: s' =>
      match s' with
      | [] => false
      | d :: _ => ((c =? a)%N && (d =? b)%N) || adjacent a b s'
      end
  end.

(** The classification of a subject's semester in the report, and the
    number of runs of equal consecutive values in a list. *)
Definition semester_num (s : subject) : str :=
  if contains (utf8 "1") (semester s) then utf8 "1" else utf8 "2".

Fixpoint runs (l : list str) : nat :=
  match l with
  | [] => 0
  | x :: l' =>
      match l' with
      | [] => 1
      | y :: _ => if str_eqb x y then runs l' else S (runs l')
      end
  end.

(** The status code of a response. *)
Definition status_of (r : response) : nat :=
  match r with
  | Body200 _ => 200
  | Empty200 => 200
  | Error status_code _ => status_code
  end.

(** A date of the calendar, and its text with four, two and two ASCII
    digits. *)
Definition valid_date (d : datetime) : Prop :=
  (1 <= year d <= 9999)%N /\ (1 <= month d <= 12)%N /\
  (1 <= day d <= days_in_month (year d) (month d))%N.

Definition two_digits (n : N) : str :=
  [digit_char (n / 10); digit_char (n mod 10)].

Definition date_text (d : datetime) : str :=
  two_digits (year d / 100) ++ two_digits (year d mod 100) ++
  [SLASH] ++ two_digits (month d) ++ [SLASH] ++ two_digits (day d).

(** The keys of the dictionary of [convert_arabic_numbers]. *)
Definition arabic_keys : list str := map fst arabic_to_english.

(** An entry with a key of two characters and a value of one; an entry
    no character of whose value is a character of one of the keys. *)
Definition two_to_one (kv : str * str) : Prop :=
  exists a b d, kv = ([a; b], [d]).

Definition apart (keys : list str) (kv : str * str) : Prop :=
  forall k d, In k keys -> In d (snd kv) -> ~ In d k.

(** The site as the handler sees it: the page of an identifier, if the
    request succeeds, and what the extraction makes of it. *)
Definition web_of {float_of_str : Floatable str} (site : str -> option soup)
    (student_id : str) : option scraped :=
  match site student_id with
  | Some page => scrape page
  | None => None
  end.

(** ** Inputs of the further examples *)

(** A page with two tables. The last one has a heading row and five
    rows: Algebra twice (75 in Arabic-Indic digits with a fifth cell, and
    40), Physics, a row of two cells and a row whose mark is no number. *)
Definition X_page : soup :=
  {| name_element := Some (utf8 " Student Name ");
     panel_headings := [utf8 "First year"; utf8 " Second year "];
     tables :=
       [ [ [utf8 "Subject"; utf8 "Semester"; utf8 "Mark"; utf8 "Date"];
           [utf8 "History"; utf8 "Semester 1"; utf8 "90"; utf8 "2022/01/10"] ];
         [ [utf8 "Subject"; utf8 "Semester"; utf8 "Mark"; utf8 "Date"];
           [utf8 "Algebra"; utf8 "Semester 1"; utf8 " ٧٥ "; utf8 "note";
            utf8 "2024/01/10"];
           [utf8 "Physics"; utf8 "Semester 2"; utf8 "55"; utf8 " 2023/09/01 "];
           [utf8 "Algebra"; utf8 "Semester 1"; utf8 "40"; utf8 "2023/06/01"];
           [utf8 "Chemistry"; utf8 "Semester 1"];
           [utf8 "Biology"; utf8 "Semester 2"; utf8 "absent"; utf8 "2024/02/01"] ] ] |}.

(** The site knows one identifier. *)
Definition X_site (student_id : str) : option soup :=
  if str_eqb student_id (utf8 "202112345") then Some X_page else None.

(** The entries of the rows of the last table of [X_page]. *)
Definition X_rows : list subject :=
  rows_loop (tl (last (tables X_page) [])).

(** Two rows of one subject, the first with the mark cell [nan], which
    [float] accepts, and the entries they give. *)
Definition C1_nan_cells : list (list str) :=
  [[utf8 "Physics"; utf8 "Semester 1"; utf8 "nan"; utf8 "2024/01/10"];
   [utf8 "Physics"; utf8 "Semester 1"; utf8 "90"; utf8 "2023/09/01"]].

Definition C1_nan_rows : list subject :=
  [row_entry (utf8 "Physics") (utf8 "Semester 1") (utf8 "nan") nan
     (utf8 "2024/01/10");
   row_entry (utf8 "Physics") (utf8 "Semester 1") (utf8 "90") 90
     (utf8 "2023/09/01")].

(* ================================================================== *)
(** * Part II: properties *)
(* ================================================================== *)

Unset Implicit Arguments.

(** ** The order of floats *)

Module FloatOrder.

Lemma ltb_fcompare x y : (x <? y)%float = true <-> fcompare x y = Some Lt.
Proof.
  rewrite ltb_spec. unfold SFltb, fcompare.
  destruct (SFcompare _ _) as [[]|]; split; congruence.
Qed.

Lemma leb_fcompare x y :
  (x <=? y)%float = true <-> fcompare x y = Some Lt \/ fcompare x y = Some Eq.
Proof.
  rewrite leb_spec. unfold SFleb, fcompare.
  destruct (SFcompare _ _) as [[]|]; split; intros; try congruence; auto;
    destruct H; congruence.
Qed.

Lemma is_nan_fcompare x : is_nan x = true <-> fcompare x x = None.
Proof.
  unfold is_nan. rewrite eqb_spec. unfold SFeqb, fcompare.
  destruct (Prim2SF x) as [s| s| |s m e]; simpl;
    try (split; congruence); try (destruct s; split; simpl; congruence).
  destruct s; rewrite Z.compare_refl, Pos.compare_cont_refl; simpl;
    split; congruence.
Qed.

Ltac cmp_cases :=
  repeat match goal with
  | |- context [Pos.compare_cont Eq ?a ?b] =>
      change (Pos.compare_cont Eq a b) with (Pos.compare a b);
      destruct (Pos.compare_spec a b)
  | |- context [Z.compare ?a ?b] => destruct (Z.compare_spec a b)
  | H : context [Pos.compare_cont Eq ?a ?b] |- _ =>
      change (Pos.compare_cont Eq a b) with (Pos.compare a b) in H;
      destruct (Pos.compare_spec a b)
  | H : context [Z.compare ?a ?b] |- _ => destruct (Z.compare_spec a b)
  end.

Ltac sf_cases x y z :=
  destruct x as [[]|[]| |[] ? ?], y as [[]|[]| |[] ? ?], z as [[]|[]| |[] ? ?];
  simpl; intros; try discriminate; try reflexivity;
  f_equal; cmp_cases; simpl in *; subst;
  try discriminate; try reflexivity; try lia.

Lemma SFcompare_antisym x y :
  SFcompare y x = option_map CompOpp (SFcompare x y).
Proof.
  destruct x as [[]|[]| |[] m1 e1], y as [[]|[]| |[] m2 e2]; simpl;
    try reflexivity; f_equal; cmp_cases; simpl; subst;
    try reflexivity; try lia.
Qed.

Lemma SFcompare_lt_trans x y z :
  SFcompare x y = Some Lt -> SFcompare y z = Some Lt -> SFcompare x z = Some Lt.
Proof. sf_cases x y z. Qed.

Lemma SFcompare_None x y :
  SFcompare x y = None -> SFcompare x x = None \/ SFcompare y y = None.
Proof.
  destruct x as [[]|[]| |[] m1 e1], y as [[]|[]| |[] m2 e2]; simpl;
    intros; try discriminate; auto.
Qed.

Lemma fcompare_antisym x y c :
  fcompare x y = Some c -> fcompare y x = Some (CompOpp c).
Proof.
  unfold fcompare. intros H. rewrite SFcompare_antisym, H. reflexivity.
Qed.

(** [<] on floats is a strict order. *)
Lemma float_lt_irrefl x : (x <? x)%float = false.
Proof.
  destruct (x <? x)%float eqn:E; [|reflexivity].
  apply ltb_fcompare in E. pose proof (fcompare_antisym _ _ _ E) as E'.
  simpl in E'. congruence.
Qed.

Lemma float_lt_trans x y z :
  (x <? y)%float = true -> (y <? z)%float = true -> (x <? z)%float = true.
Proof.
  rewrite !ltb_fcompare. apply SFcompare_lt_trans.
Qed.

(** [x <= y] excludes [y < x], and [x < y] excludes [y <= x]. *)
Lemma float_le_not_gt x y : (x <=? y)%float = true -> (y <? x)%float = false.
Proof.
  intros H. destruct (y <? x)%float eqn:E; [|reflexivity].
  apply ltb_fcompare, fcompare_antisym in E. apply leb_fcompare in H.
  simpl in E. destruct H; congruence.
Qed.

Lemma float_lt_not_ge x y : (x <? y)%float = true -> (y <=? x)%float = false.
Proof.
  intros H. destruct (y <=? x)%float eqn:E; [|reflexivity].
  apply float_le_not_gt in E. congruence.
Qed.

Lemma float_le_strict x y :
  (x <=? y)%float = true -> (y <=? x)%float = false -> (x <? y)%float = true.
Proof.
  intros H N. apply ltb_fcompare. apply leb_fcompare in H.
  destruct H as [H|H]; [exact H|].
  apply fcompare_antisym in H. simpl in H.
  assert ((y <=? x)%float = true) by (apply leb_fcompare; auto).
  congruence.
Qed.

(** Two floats neither of which is [nan] are comparable. *)
Lemma float_not_lt_le x y :
  is_nan x = false -> is_nan y = false ->
  (x <? y)%float = false -> (y <=? x)%float = true.
Proof.
  intros Nx Ny H. apply leb_fcompare.
  destruct (fcompare x y) as [c|] eqn:E.
  - apply fcompare_antisym in E.
    destruct c; simpl in E; auto.
    assert ((x <? y)%float = true) by (apply ltb_fcompare; apply fcompare_antisym in E; exact E).
    congruence.
  - apply SFcompare_None in E. destruct E as [E|E];
      apply is_nan_fcompare in E; congruence.
Qed.

End FloatOrder.
Import FloatOrder.

(** ** Stable sorting and [max] over an arbitrary strict order *)

Section SortingFacts.
Context {A K : Type} (key : A -> K) (ltb : K -> K -> bool).
Hypothesis ltb_irrefl : forall a, ltb a a = false.
Hypothesis ltb_trans :
  forall a b c, ltb a b = true -> ltb b c = true -> ltb a c = true.

Lemma ltb_asym a b : ltb a b = true -> ltb b a = false.
Proof.
  intros H. destruct (ltb b a) eqn:E; [|reflexivity].
  rewrite <- (ltb_irrefl a). symmetry. eapply ltb_trans; eauto.
Qed.

(** Where [insert_sorted] puts the new element: behind a prefix of
    strictly smaller elements. *)
Lemma insert_sorted_split x l :
  exists l1 l2,
    l = l1 ++ l2 /\ insert_sorted key ltb x l = l1 ++ x :: l2 /\
    Forall (fun y => ltb (key y) (key x) = true) l1 /\
    (forall y l2', l2 = y :: l2' -> ltb (key y) (key x) = false).
Proof.
  induction l as [|y l IH]; simpl.
  - exists [], []. repeat split; auto. intros; discriminate.
  - destruct (ltb (key y) (key x)) eqn:E.
    + destruct IH as (l1 & l2 & -> & -> & F & Hd).
      exists (y :: l1), l2. repeat split; auto.
    + exists [], (y :: l). repeat split; auto.
      intros y' l2' [= <- <-]. exact E.
Qed.

Lemma insert_sorted_perm x l : Permutation (insert_sorted key ltb x l) (x :: l).
Proof.
  destruct (insert_sorted_split x l) as (l1 & l2 & -> & -> & _).
  symmetry. apply Permutation_middle.
Qed.

Lemma sorted_perm l : Permutation (sorted key ltb l) l.
Proof.
  induction l as [|x l IH]; simpl; [constructor|].
  rewrite insert_sorted_perm. constructor. exact IH.
Qed.

Lemma sorted_In l x : In x (sorted key ltb l) <-> In x l.
Proof.
  split; apply Permutation_in; [|symmetry]; apply sorted_perm.
Qed.

Lemma sorted_length l : length (sorted key ltb l) = length l.
Proof. apply Permutation_length, sorted_perm. Qed.

(** Stability: the elements with a given key come out in the order they
    went in. *)
Section Stable.
Variable same : K -> K -> bool.
Hypothesis same_spec : forall a b, same a b = true <-> a = b.

Lemma insert_sorted_stable k x l :
  filter (fun y => same (key y) k) (insert_sorted key ltb x l) =
  filter (fun y => same (key y) k) (x :: l).
Proof.
  destruct (insert_sorted_split x l) as (l1 & l2 & -> & -> & F & _).
  simpl. rewrite !filter_app. simpl.
  destruct (same (key x) k) eqn:E; [|reflexivity].
  apply same_spec in E. subst k.
  replace (filter (fun y => same (key y) (key x)) l1) with (@nil A);
    [reflexivity|].
  symmetry. induction F as [|y l1 Hy F IH]; simpl; [reflexivity|].
  destruct (same (key y) (key x)) eqn:E; [|exact IH].
  apply same_spec in E. rewrite E, ltb_irrefl in Hy. discriminate.
Qed.

Lemma sorted_stable k l :
  filter (fun y => same (key y) k) (sorted key ltb l) =
  filter (fun y => same (key y) k) l.
Proof.
  induction l as [|x l IH]; simpl; [reflexivity|].
  rewrite insert_sorted_stable. simpl. rewrite IH. reflexivity.
Qed.
End Stable.

(** [max] returns an element of the list that no element exceeds. *)
Lemma max_from_spec l best :
  let r := max_from key ltb best l in
  In r (best :: l) /\
  (r = best \/ ltb (key best) (key r) = true) /\
  Forall (fun y => ltb (key r) (key y) = false) l.
Proof.
  revert best. induction l as [|x l IH]; intros best; simpl.
  - auto.
  - specialize (IH (if ltb (key best) (key x) then x else best)).
    cbv zeta in IH. destruct IH as (I & R & F).
    set (r := max_from key ltb _ l) in *.
    destruct (ltb (key best) (key x)) eqn:E.
    + repeat split.
      * destruct I; auto.
      * right. destruct R as [->|R]; auto. eapply ltb_trans; eauto.
      * constructor; auto. destruct R as [->|R]; auto using ltb_asym.
    + repeat split.
      * destruct I; auto.
      * exact R.
      * constructor; auto. destruct R as [->|R]; auto.
        destruct (ltb (key r) (key x)) eqn:E'; auto.
        rewrite <- E. symmetry. eapply ltb_trans; eauto.
Qed.

Lemma py_max_spec l r :
  py_max key ltb l = Some r ->
  In r l /\ Forall (fun y => ltb (key r) (key y) = false) l.
Proof.
  destruct l as [|x l]; simpl; [discriminate|]. intros [= <-].
  destruct (max_from_spec l x) as (I & R & F). cbv zeta in *.
  split; [exact I|]. constructor; [|exact F].
  destruct R as [->|R]; auto using ltb_asym.
Qed.

(** When an element is reached that every earlier one is strictly below,
    and that no later one exceeds, it is the result. *)
Lemma max_from_first pre o post best :
  ltb (key best) (key o) = true ->
  Forall (fun y => ltb (key y) (key o) = true) pre ->
  Forall (fun y => ltb (key o) (key y) = false) post ->
  max_from key ltb best (pre ++ o :: post) = o.
Proof.
  intros B P Q. revert best B. induction P as [|y pre Hy P IH]; intros best B; simpl.
  - rewrite B. clear B. induction Q as [|y post Hy Q IH]; simpl; auto.
    rewrite Hy. exact IH.
  - apply IH. destruct (ltb (key best) (key y)); auto.
Qed.

Lemma py_max_first pre o post :
  Forall (fun y => ltb (key y) (key o) = true) pre ->
  Forall (fun y => ltb (key o) (key y) = false) post ->
  py_max key ltb (pre ++ o :: post) = Some o.
Proof.
  intros P Q. destruct pre as [|b pre]; simpl.
  - f_equal. clear P. induction Q as [|y post Hy Q IH]; simpl; auto.
    rewrite Hy. exact IH.
  - f_equal. inversion P; subst. apply max_from_first; auto.
Qed.

(** The remaining facts need the order to be total on keys. *)
Hypothesis ltb_negtrans :
  forall a b c, ltb b a = false -> ltb c b = false -> ltb c a = false.

Lemma insert_sorted_sorted x l :
  StronglySorted (key_le key ltb) l -> StronglySorted (key_le key ltb) (insert_sorted key ltb x l).
Proof.
  induction 1 as [|y l S IH F]; simpl.
  - repeat constructor.
  - destruct (ltb (key y) (key x)) eqn:E.
    + constructor; [exact IH|].
      rewrite Forall_forall in *. intros z Hz.
      apply (Permutation_in _ (insert_sorted_perm x l)) in Hz.
      destruct Hz as [<-|Hz]; [apply ltb_asym; exact E|auto].
    + constructor; [constructor; auto|].
      constructor; [exact E|].
      rewrite Forall_forall in *. intros z Hz. unfold key_le.
      eapply ltb_negtrans; [exact E|]. apply F. exact Hz.
Qed.

Lemma sorted_sorted l : StronglySorted (key_le key ltb) (sorted key ltb l).
Proof.
  induction l as [|x l IH]; simpl; [constructor|].
  apply insert_sorted_sorted. exact IH.
Qed.

(** The head of the sorted list is the first element of least key. *)
Lemma sorted_head l h t :
  sorted key ltb l = h :: t ->
  exists pre post,
    l = pre ++ h :: post /\
    Forall (fun y => ltb (key h) (key y) = true) pre /\
    Forall (fun y => ltb (key y) (key h) = false) post.
Proof.
  revert h t. induction l as [|x l IH]; simpl; intros h t E; [discriminate|].
  destruct (sorted key ltb l) as [|h' t'] eqn:S.
  - assert (l = []) as ->.
    { apply length_zero_iff_nil. rewrite <- sorted_length, S. reflexivity. }
    simpl in E. injection E as <- <-. exists [], []. auto.
  - destruct (IH _ _ eq_refl) as (pre & post & -> & P & Q).
    simpl in E. destruct (ltb (key h') (key x)) eqn:L.
    + injection E as <- <-. exists (x :: pre), post. auto.
    + injection E as <- <-. exists [], (pre ++ h' :: post).
      repeat split; auto.
      rewrite Forall_forall in *. intros z Hz.
      apply in_app_or in Hz. destruct Hz as [Hz|[<-|Hz]].
      * eapply ltb_negtrans; [exact L|]. apply ltb_asym. auto.
      * exact L.
      * eapply ltb_negtrans; [exact L|]. auto.
Qed.

End SortingFacts.

(** ** The order of dates *)

Lemma dt_ltb_spec a b :
  dt_ltb a b = true <->
  (year a < year b \/
   (year a = year b /\
    (month a < month b \/ (month a = month b /\ day a < day b))))%N.
Proof.
  unfold dt_ltb.
  rewrite !orb_true_iff, !andb_true_iff, !orb_true_iff, !andb_true_iff,
    !N.ltb_lt, !N.eqb_eq.
  reflexivity.
Qed.

Lemma dt_ltb_false a b :
  dt_ltb a b = false <->
  ~ (year a < year b \/
     (year a = year b /\
      (month a < month b \/ (month a = month b /\ day a < day b))))%N.
Proof.
  rewrite <- dt_ltb_spec. destruct (dt_ltb a b); split; congruence.
Qed.

Lemma dt_ltb_irrefl a : dt_ltb a a = false.
Proof. apply dt_ltb_false. lia. Qed.

Lemma dt_ltb_trans a b c :
  dt_ltb a b = true -> dt_ltb b c = true -> dt_ltb a c = true.
Proof. rewrite !dt_ltb_spec. lia. Qed.

Lemma dt_ltb_negtrans a b c :
  dt_ltb b a = false -> dt_ltb c b = false -> dt_ltb c a = false.
Proof. rewrite !dt_ltb_false. lia. Qed.

Lemma dt_eqb_spec a b : dt_eqb a b = true <-> a = b.
Proof.
  unfold dt_eqb. rewrite !andb_true_iff, !N.eqb_eq.
  destruct a, b; simpl. split; [intros [[-> ->] ->]; reflexivity|].
  intros [= -> -> ->]. auto.
Qed.

(** ** Grouping by subject name *)

Lemma str_eqb_eq a b : str_eqb a b = true <-> a = b.
Proof. unfold str_eqb. destruct (str_eq_dec a b); split; congruence. Qed.

Lemma str_eqb_refl a : str_eqb a a = true.
Proof. apply str_eqb_eq. reflexivity. Qed.

Lemma str_eqb_neq a b : str_eqb a b = false <-> a <> b.
Proof. unfold str_eqb. destruct (str_eq_dec a b); split; congruence. Qed.

Lemma distinct_In l x : In x (distinct l) <-> In x l.
Proof.
  induction l as [|a l IH]; simpl; [tauto|].
  rewrite filter_In, IH, negb_true_iff, str_eqb_neq.
  destruct (str_eq_dec a x); [tauto|].
  split; [tauto|]. intros [?|?]; [tauto|]. right. split; congruence.
Qed.

Lemma distinct_NoDup l : NoDup (distinct l).
Proof.
  induction l as [|a l IH]; simpl; constructor.
  - rewrite filter_In, negb_true_iff, str_eqb_neq. tauto.
  - apply NoDup_filter. exact IH.
Qed.

Lemma distinct_snoc l x :
  distinct (l ++ [x]) =
  if in_dec str_eq_dec x l then distinct l else distinct l ++ [x].
Proof.
  induction l as [|a l IH]; simpl; [reflexivity|].
  rewrite IH. destruct (str_eq_dec a x) as [->|N].
  - destruct (in_dec str_eq_dec x l); [reflexivity|].
    rewrite filter_app. simpl. rewrite str_eqb_refl. simpl.
    rewrite app_nil_r. reflexivity.
  - destruct (in_dec str_eq_dec x l); [reflexivity|].
    rewrite filter_app. simpl.
    replace (str_eqb x a) with false; [reflexivity|].
    symmetry. apply str_eqb_neq. congruence.
Qed.

Lemma filter_has_name_snoc n l s :
  filter (has_name n) (l ++ [s]) =
  filter (has_name n) l ++ (if str_eqb (name s) n then [s] else []).
Proof. rewrite filter_app. reflexivity. Qed.

Lemma groups_append_present D l s :
  NoDup D -> In (name s) D ->
  groups_append (map (group_entry l) D) (name s) s =
  map (group_entry (l ++ [s])) D.
Proof.
  induction 1 as [|n D Hn ND IH]; simpl; [tauto|].
  intros I. unfold group_entry at 1 3. unfold group_of. rewrite filter_has_name_snoc.
  destruct (str_eqb n (name s)) eqn:E.
  - apply str_eqb_eq in E. subst n. rewrite str_eqb_refl. f_equal.
    apply map_ext_in. intros m Hm. unfold group_entry, group_of.
    rewrite filter_has_name_snoc.
    replace (str_eqb (name s) m) with false; [rewrite app_nil_r; reflexivity|].
    symmetry. apply str_eqb_neq. intros <-. contradiction.
  - apply str_eqb_neq in E.
    replace (str_eqb (name s) n) with false
      by (symmetry; apply str_eqb_neq; congruence).
    rewrite app_nil_r. f_equal. apply IH. destruct I; congruence.
Qed.

Lemma groups_append_absent D l s :
  ~ In (name s) D -> filter (has_name (name s)) l = [] ->
  groups_append (map (group_entry l) D) (name s) s =
  map (group_entry (l ++ [s])) (D ++ [name s]).
Proof.
  intros NI F. induction D as [|n D IH]; simpl.
  - unfold group_entry, group_of. rewrite filter_has_name_snoc, F, str_eqb_refl.
    reflexivity.
  - simpl in NI. unfold group_entry at 1 3. unfold group_of. rewrite filter_has_name_snoc.
    replace (str_eqb n (name s)) with false
      by (symmetry; apply str_eqb_neq; tauto).
    replace (str_eqb (name s) n) with false
      by (symmetry; apply str_eqb_neq; intros E; symmetry in E; tauto).
    rewrite app_nil_r. f_equal. apply IH. tauto.
Qed.

Lemma filter_has_name_nil n l :
  ~ In n (map name l) -> filter (has_name n) l = [].
Proof.
  induction l as [|s l IH]; simpl; [reflexivity|].
  intros NI. unfold has_name at 1.
  replace (str_eqb (name s) n) with false
    by (symmetry; apply str_eqb_neq; tauto).
  apply IH. tauto.
Qed.

(** The groups: one per distinct name, in the order of first occurrence,
    each with the occurrences of that name in row order. *)
Lemma subject_groups_spec l :
  subject_groups l = map (group_entry l) (distinct (map name l)).
Proof.
  induction l as [|s l IH] using rev_ind; [reflexivity|].
  unfold subject_groups in *. rewrite fold_left_app. simpl. rewrite IH.
  rewrite map_app. simpl. rewrite distinct_snoc.
  destruct (in_dec str_eq_dec (name s) (map name l)) as [I|NI].
  - apply groups_append_present; [apply distinct_NoDup|].
    apply distinct_In. exact I.
  - apply groups_append_absent.
    + rewrite distinct_In. exact NI.
    + apply filter_has_name_nil. exact NI.
Qed.

Lemma filter_has_name_nonempty n l :
  In n (map name l) -> filter (has_name n) l <> [].
Proof.
  rewrite in_map_iff. intros (s & <- & I) E.
  assert (In s (filter (has_name (name s)) l)) as H.
  { apply filter_In. split; [exact I|]. apply str_eqb_refl. }
  rewrite E in H. exact H.
Qed.

Lemma combine_group_total n occ :
  occ <> [] -> exists e, combine_group n occ = Some e.
Proof.
  intros NE. unfold combine_group.
  destruct (sorted sort_key dt_ltb occ) as [|oldest t] eqn:S.
  - exfalso. apply NE, length_zero_iff_nil.
    rewrite <- (sorted_length sort_key dt_ltb), S. reflexivity.
  - destruct occ as [|x occ]; [congruence|]. simpl. eauto.
Qed.

Lemma combine_group_name n occ e : combine_group n occ = Some e -> name e = n.
Proof.
  unfold combine_group.
  destruct (sorted _ _ occ); [discriminate|].
  destruct (py_max _ _ occ); [|discriminate].
  intros [= <-]. reflexivity.
Qed.

Lemma final_subjects_of_spec l D :
  (forall n, In n D -> In n (map name l)) ->
  exists fs,
    final_subjects_of (map (group_entry l) D) = Some fs /\
    Forall2 (fun n e => combine_group n (group_of n l) = Some e) D fs.
Proof.
  induction D as [|n D IH]; intros H; simpl.
  - exists []. split; [reflexivity|constructor].
  - destruct (combine_group_total n (group_of n l)) as (e & E).
    { apply filter_has_name_nonempty, H. left. reflexivity. }
    destruct IH as (fs & F & G); [intros; apply H; right; assumption|].
    exists (e :: fs). rewrite E, F. split; [reflexivity|].
    constructor; assumption.
Qed.

(** [process_duplicates] always returns: the entries of the groups, sorted. *)
Lemma process_duplicates_spec l :
  exists fs,
    Forall2 (fun n e => combine_group n (group_of n l) = Some e)
      (distinct (map name l)) fs /\
    process_duplicates l = Some (sorted sort_key dt_ltb fs).
Proof.
  destruct (final_subjects_of_spec l (distinct (map name l))) as (fs & F & G).
  { intros n. apply distinct_In. }
  exists fs. split; [exact G|].
  unfold process_duplicates. rewrite subject_groups_spec, F. reflexivity.
Qed.

Lemma Forall2_names l D fs :
  Forall2 (fun n e => combine_group n (group_of n l) = Some e) D fs ->
  map name fs = D.
Proof.
  induction 1 as [|n e D fs E F IH]; simpl; [reflexivity|].
  rewrite IH. f_equal. eapply combine_group_name; eauto.
Qed.

Lemma Forall2_In_r {A B : Type} (R : A -> B -> Prop) l1 l2 b :
  Forall2 R l1 l2 -> In b l2 -> exists a, In a l1 /\ R a b.
Proof.
  induction 1 as [|x y l1 l2 Hxy F IH]; simpl; [tauto|].
  intros [<-|I]; [eauto|]. destruct (IH I) as (a & Ia & Ra). eauto.
Qed.

Lemma Forall2_In_l {A B : Type} (R : A -> B -> Prop) l1 l2 a :
  Forall2 R l1 l2 -> In a l1 -> exists b, In b l2 /\ R a b.
Proof.
  induction 1 as [|x y l1 l2 Hxy F IH]; simpl; [tauto|].
  intros [<-|I]; [eauto|]. destruct (IH I) as (b & Ib & Rb). eauto.
Qed.

(** The record of a name: it exists, and it is the entry of its group. *)
Lemma process_duplicates_record l n :
  In n (map name l) ->
  exists out r,
    process_duplicates l = Some out /\ In r out /\
    combine_group n (group_of n l) = Some r.
Proof.
  intros I. destruct (process_duplicates_spec l) as (fs & F & P).
  apply distinct_In in I.
  destruct (Forall2_In_l _ _ _ _ F I) as (r & Ir & R).
  exists (sorted sort_key dt_ltb fs), r. repeat split; auto.
  apply sorted_In. exact Ir.
Qed.

Lemma process_duplicates_names l out :
  process_duplicates l = Some out ->
  Permutation (map name out) (distinct (map name l)).
Proof.
  destruct (process_duplicates_spec l) as (fs & F & P). rewrite P.
  intros [= <-]. rewrite <- (Forall2_names _ _ _ F).
  apply Permutation_map, sorted_perm.
Qed.

(** ** Relative positions in a list *)

Lemma placed_before_In {A : Type} (a b : A) l :
  placed_before a b l -> In a l /\ In b l.
Proof.
  intros (l1 & l2 & l3 & ->). split.
  - apply in_or_app. right. left. reflexivity.
  - apply in_or_app. right. right. apply in_or_app. right. left. reflexivity.
Qed.

Lemma placed_before_cons {A : Type} (x a b : A) l :
  placed_before a b l -> placed_before a b (x :: l).
Proof.
  intros (l1 & l2 & l3 & ->). exists (x :: l1), l2, l3. reflexivity.
Qed.

Lemma placed_before_head {A : Type} (a b : A) l :
  In b l -> placed_before a b (a :: l).
Proof.
  intros I. apply in_split in I. destruct I as (l2 & l3 & ->).
  exists [], l2, l3. reflexivity.
Qed.

Lemma placed_before_inv {A : Type} (x a b : A) l :
  placed_before a b (x :: l) -> (x = a /\ In b l) \/ placed_before a b l.
Proof.
  intros ([|y l1] & l2 & l3 & E); simpl in E; injection E as -> ->.
  - left. split; [reflexivity|]. apply in_or_app. right. left. reflexivity.
  - right. exists l1, l2, l3. reflexivity.
Qed.

Lemma nth_error_placed_before {A : Type} (l : list A) i j a b :
  nth_error l i = Some a -> nth_error l j = Some b -> i < j ->
  placed_before a b l.
Proof.
  revert i j. induction l as [|x l IH]; intros i j Hi Hj Lt.
  - destruct i; discriminate.
  - destruct j as [|j]; [lia|]. simpl in Hj. destruct i as [|i].
    + injection Hi as ->. apply placed_before_head.
      eapply nth_error_In; eauto.
    + apply placed_before_cons. apply (IH i j); auto. lia.
Qed.

Lemma placed_before_filter {A : Type} (p : A -> bool) (a b : A) l :
  p a = true -> p b = true ->
  (placed_before a b (filter p l) <-> placed_before a b l).
Proof.
  intros Pa Pb. induction l as [|x l IH]; simpl.
  - split; intros ([|? ?] & ? & ? & E); discriminate.
  - split.
    + destruct (p x) eqn:Px.
      * intros H. apply placed_before_inv in H. destruct H as [[-> I]|H].
        -- apply placed_before_head. apply filter_In in I. tauto.
        -- apply placed_before_cons, IH, H.
      * intros H. apply placed_before_cons, IH, H.
    + intros H. apply placed_before_inv in H. destruct H as [[-> I]|H].
      * rewrite Pa. apply placed_before_head. apply filter_In. tauto.
      * destruct (p x); [apply placed_before_cons|]; apply IH, H.
Qed.

Lemma placed_before_map {A B : Type} (f : A -> B) (a b : A) l :
  placed_before a b l -> placed_before (f a) (f b) (map f l).
Proof.
  intros (l1 & l2 & l3 & ->). exists (map f l1), (map f l2), (map f l3).
  rewrite map_app. simpl. rewrite map_app. reflexivity.
Qed.

Lemma placed_before_total {A : Type} (a b : A) l :
  In a l -> In b l -> a <> b -> placed_before a b l \/ placed_before b a l.
Proof.
  induction l as [|x l IH]; simpl; [tauto|].
  intros [->|Ia] [->|Ib] N.
  - congruence.
  - left. apply placed_before_head, Ib.
  - right. apply placed_before_head, Ia.
  - destruct (IH Ia Ib N); [left|right]; apply placed_before_cons; assumption.
Qed.

Lemma sorted_placed_before {A : Type} (R : A -> A -> Prop) (a b : A) l :
  StronglySorted R l -> placed_before a b l -> R a b.
Proof.
  intros S (l1 & l2 & l3 & ->).
  induction l1 as [|x l1 IH]; simpl in S.
  - inversion S as [|? ? _ F]; subst. rewrite Forall_forall in F.
    apply F. apply in_or_app. right. left. reflexivity.
  - inversion S; subst. auto.
Qed.

Lemma first_index_distinct x y names :
  placed_before x y (distinct names) ->
  first_index x names < first_index y names.
Proof.
  induction names as [|n names IH]; simpl.
  - intros ([|? ?] & ? & ? & E); discriminate.
  - intros H. apply placed_before_inv in H.
    destruct H as [[-> I]|H].
    + rewrite str_eqb_refl. apply filter_In in I. destruct I as [_ I].
      apply negb_true_iff, str_eqb_neq in I.
      replace (str_eqb x y) with false; [lia|].
      symmetry. apply str_eqb_neq. congruence.
    + destruct (placed_before_In _ _ _ H) as [Ix Iy].
      apply filter_In in Ix, Iy. destruct Ix as [_ Ix], Iy as [_ Iy].
      apply negb_true_iff, str_eqb_neq in Ix, Iy.
      replace (str_eqb n x) with false
        by (symmetry; apply str_eqb_neq; congruence).
      replace (str_eqb n y) with false
        by (symmetry; apply str_eqb_neq; congruence).
      apply -> Nat.succ_lt_mono. apply IH.
      eapply placed_before_filter; [| |exact H];
        apply negb_true_iff, str_eqb_neq; assumption.
Qed.

(** ** Reconciliation *)

Lemma process_duplicates_NoDup l out :
  process_duplicates l = Some out -> NoDup (map name out).
Proof.
  intros P. apply process_duplicates_names in P.
  eapply Permutation_NoDup; [symmetry; exact P|apply distinct_NoDup].
Qed.

Lemma NoDup_map_inj {A B : Type} (f : A -> B) l a b :
  NoDup (map f l) -> In a l -> In b l -> f a = f b -> a = b.
Proof.
  induction l as [|x l IH]; simpl; [tauto|].
  intros ND. inversion ND as [|? ? NI ND']; subst.
  intros [->|Ia] [->|Ib] E; auto.
  - exfalso. apply NI. rewrite E. apply in_map. exact Ib.
  - exfalso. apply NI. rewrite <- E. apply in_map. exact Ia.
Qed.

(** The one record of a name. *)
Lemma process_duplicates_the_record l n :
  In n (map name l) ->
  exists out r,
    process_duplicates l = Some out /\ In r out /\ name r = n /\
    (forall r', In r' out -> name r' = n -> r' = r) /\
    combine_group n (group_of n l) = Some r.
Proof.
  intros I. destruct (process_duplicates_record l n I) as (out & r & P & Ir & C).
  exists out, r. pose proof (combine_group_name _ _ _ C) as Nr.
  repeat split; auto.
  intros r' Ir' Nr'. apply (NoDup_map_inj name out); auto.
  - eapply process_duplicates_NoDup; eauto.
  - congruence.
Qed.

(** C1, amended. For every subject name that occurs in the rows, the
    reconciled list holds exactly one record [r] of that name, and
    - when no mark of the group is [nan], every mark of the group is less
      than or equal to the mark of [r], which is the mark of an occurrence
      of the group (the maximum); in any group the mark of [r] is the mark
      of an occurrence that no occurrence of the group exceeds;
    - its semester label, raw release date and parsed date are those of an
      occurrence of the group whose date key no occurrence of the group
      precedes, the key of an unparsable date being [datetime.min] (the
      earliest).
    For the marks 55, 90, 70 released on 2024/01/10, 2023/09/01,
    2024/03/01 the record has mark 90, date 2023/09/01 and the semester
    label of that occurrence. *)
Theorem C1_max_mark_with_oldest_date_amended :
  (forall subjects_data n,
     In n (map name subjects_data) ->
     exists out r newest oldest,
       process_duplicates subjects_data = Some out /\
       In r out /\ name r = n /\
       (forall r', In r' out -> name r' = n -> r' = r) /\
       In newest (group_of n subjects_data) /\
       mark r = mark newest /\
       (forall o, In o (group_of n subjects_data) ->
          (mark r <? mark o)%float = false) /\
       ((forall o, In o (group_of n subjects_data) -> is_nan (mark o) = false) ->
        forall o, In o (group_of n subjects_data) ->
          (mark o <=? mark r)%float = true) /\
       In oldest (group_of n subjects_data) /\
       (forall o, In o (group_of n subjects_data) ->
          dt_ltb (date_key (parsed_date o)) (date_key (parsed_date oldest)) = false) /\
       semester r = semester oldest /\
       release_date r = release_date oldest /\
       parsed_date r = parsed_date oldest) /\
  (exists r,
     process_duplicates C1_rows = Some [r] /\
     map mark C1_rows = [55; 90; 70]%float /\
     map release_date C1_rows =
       [utf8 "2024/01/10"; utf8 "2023/09/01"; utf8 "2024/03/01"] /\
     mark r = 90%float /\
     release_date r = utf8 "2023/09/01" /\
     parsed_date r = Some (mkdate 2023 9 1) /\
     semester r = utf8 "Semester 1").
Proof.
  split.
  - intros subjects_data n I.
    destruct (process_duplicates_the_record _ _ I) as (out & r & P & Ir & Nr & U & C).
    unfold group_of in *. unfold combine_group in C.
    destruct (sorted sort_key dt_ltb (filter (has_name n) subjects_data))
      as [|oldest t] eqn:S; [discriminate|].
    destruct (py_max mark PrimFloat.ltb (filter (has_name n) subjects_data))
      as [newest|] eqn:M; [|discriminate].
    injection C as <-. simpl in *.
    destruct (py_max_spec mark PrimFloat.ltb float_lt_irrefl float_lt_trans _ _ M)
      as (In_new & Fmax).
    rewrite Forall_forall in Fmax.
    destruct (sorted_head sort_key dt_ltb dt_ltb_irrefl dt_ltb_trans
                dt_ltb_negtrans _ _ _ S) as (pre & post & E & Fpre & Fpost).
    rewrite Forall_forall in Fpre, Fpost. unfold sort_key in Fpre, Fpost.
    eexists out, _, newest, oldest.
    split; [exact P|]. split; [exact Ir|]. simpl.
    split; [reflexivity|]. split; [exact U|].
    split; [exact In_new|]. split; [reflexivity|].
    split; [exact Fmax|]. split.
    { intros NN o Io. apply float_not_lt_le; auto. }
    split; [rewrite E; apply in_or_app; right; left; reflexivity|].
    split; [|auto].
    intros o Io. rewrite E in Io. apply in_app_or in Io.
    destruct Io as [Io|[<-|Io]].
    + apply (ltb_asym dt_ltb dt_ltb_irrefl dt_ltb_trans). apply Fpre, Io.
    + apply dt_ltb_irrefl.
    + apply Fpost, Io.
  - eexists. vm_compute. repeat split.
Qed.

Lemma C1_witness :
  (forall o, In o (group_of (utf8 "Physics") C1_rows) ->
     is_nan (mark o) = false) /\
  exists out r,
    process_duplicates C1_rows = Some out /\ In r out /\
    name r = utf8 "Physics" /\
    (forall o, In o (group_of (utf8 "Physics") C1_rows) ->
       (mark o <=? mark r)%float = true).
Proof.
  assert (forall o, In o (group_of (utf8 "Physics") C1_rows) ->
            is_nan (mark o) = false) as NN.
  { intros o I. vm_compute in I.
    destruct I as [<-|[<-|[<-|[]]]]; vm_compute; reflexivity. }
  split; [exact NN|].
  destruct (proj1 C1_max_mark_with_oldest_date_amended C1_rows (utf8 "Physics"))
    as (out & r & newest & oldest & P & I & N & _ & _ & _ & _ & M & _).
  - simpl. left. reflexivity.
  - exists out, r. repeat split; try assumption. exact (M NN).
Defined.

(** C1 as it is worded fails. The mark cell [nan] is a number for
    [float]; with that row first, the record of the subject carries the
    mark [nan], although the group holds the mark 90, which is not less
    than or equal to it; with the two rows the other way round the record
    carries 90. *)
Lemma C1_counterexample :
  exists r o,
    rows_loop C1_nan_cells = C1_nan_rows /\
    process_duplicates C1_nan_rows = Some [r] /\
    In o (group_of (utf8 "Physics") C1_nan_rows) /\
    mark o = 90%float /\
    is_nan (mark r) = true /\
    (mark o <=? mark r)%float = false /\
    exists r',
      process_duplicates (rev C1_nan_rows) = Some [r'] /\
      mark r' = 90%float.
Proof.
  eexists.
  exists (row_entry (utf8 "Physics") (utf8 "Semester 1") (utf8 "90") 90
            (utf8 "2023/09/01")).
  split; [vm_compute; reflexivity|].
  split; [vm_compute; reflexivity|].
  split; [vm_compute; auto|].
  split; [vm_compute; reflexivity|].
  split; [vm_compute; reflexivity|].
  split; [vm_compute; reflexivity|].
  eexists. split; vm_compute; reflexivity.
Qed.

(** C2. The reconciliation of any list of occurrences returns a list in
    which no subject name occurs twice and whose names are exactly the
    names of the occurrences; names are compared as they are, character by
    character. *)
Theorem C2_one_record_per_name subjects_data :
  exists out,
    process_duplicates subjects_data = Some out /\
    NoDup (map name out) /\
    (forall n, In n (map name out) <-> In n (map name subjects_data)).
Proof.
  destruct (process_duplicates_spec subjects_data) as (fs & F & P).
  eexists. split; [exact P|].
  pose proof (process_duplicates_names _ _ P) as Pm.
  split; [eapply process_duplicates_NoDup; eauto|].
  intros n. split; intros H.
  - apply distinct_In. eapply Permutation_in; [exact Pm|exact H].
  - eapply Permutation_in; [symmetry; exact Pm|]. apply distinct_In, H.
Qed.

(** C4. In the group of a subject name, let [o] be an occurrence whose
    mark every occurrence of the group is less than or equal to, and let no
    occurrence before [o] in row order reach that mark, so that [o] is the
    first of those that tie for the maximum. Then the one record of that
    name has the mark and the mark display string of [o]. *)
Theorem C4_first_maximum_wins subjects_data n pre o post :
  group_of n subjects_data = pre ++ o :: post ->
  (forall y, In y (pre ++ o :: post) -> (mark y <=? mark o)%float = true) ->
  (forall y, In y pre -> (mark o <=? mark y)%float = false) ->
  exists out r,
    process_duplicates subjects_data = Some out /\
    In r out /\ name r = n /\
    (forall r', In r' out -> name r' = n -> r' = r) /\
    mark r = mark o /\ mark_display r = mark_display o.
Proof.
  intros E Hmax Hfirst.
  assert (In n (map name subjects_data)) as I.
  { assert (In o (group_of n subjects_data)) as Io
      by (rewrite E; apply in_or_app; right; left; reflexivity).
    apply filter_In in Io. destruct Io as [Io Ho].
    apply str_eqb_eq in Ho. rewrite <- Ho. apply in_map. exact Io. }
  destruct (process_duplicates_the_record _ _ I) as (out & r & P & Ir & Nr & U & C).
  exists out, r. repeat split; auto.
  all: unfold combine_group in C; fold (group_of n subjects_data) in C;
    rewrite E in C;
    destruct (sorted sort_key dt_ltb (pre ++ o :: post)); [discriminate|];
    rewrite (py_max_first mark PrimFloat.ltb pre o post) in C;
    [injection C as <-; reflexivity| |].
  all: rewrite Forall_forall; intros y Iy.
  1,3: apply float_le_strict; [apply Hmax; apply in_or_app; left; exact Iy|apply Hfirst, Iy].
  all: apply float_le_not_gt, Hmax; apply in_or_app; right; right; exact Iy.
Qed.

Lemma C4_witness :
  exists out r,
    process_duplicates C4_rows = Some out /\ In r out /\
    name r = utf8 "Chemistry" /\
    mark r = 90%float /\ mark_display r = utf8 "90".
Proof.
  destruct (C4_first_maximum_wins C4_rows (utf8 "Chemistry")
              [nth 0 C4_rows C3_algebra] (nth 1 C4_rows C3_algebra)
              [nth 2 C4_rows C3_algebra])
    as (out & r & P & I & N & _ & M & D).
  - reflexivity.
  - simpl. intros y [<-|[<-|[<-|[]]]]; reflexivity.
  - simpl. intros y [<-|[]]. reflexivity.
  - exists out, r. repeat split; assumption.
Defined.

(** C9. The reconciliation returns a list in which, whenever the record at
    position [i] and the record at a later position [j] have the same date
    key (equal parsed dates, or dates that both fail to parse), the name of
    the first is met before the name of the second in the original rows. *)
Theorem C9_ties_keep_first_occurrence_order subjects_data :
  exists out,
    process_duplicates subjects_data = Some out /\
    forall i j a b,
      nth_error out i = Some a -> nth_error out j = Some b -> i < j ->
      date_key (parsed_date a) = date_key (parsed_date b) ->
      first_index (name a) (map name subjects_data) <
      first_index (name b) (map name subjects_data).
Proof.
  destruct (process_duplicates_spec subjects_data) as (fs & F & P).
  eexists. split; [exact P|].
  intros i j a b Hi Hj Lt K.
  apply first_index_distinct. rewrite <- (Forall2_names _ _ _ F).
  apply placed_before_map.
  pose proof (nth_error_placed_before _ _ _ _ _ Hi Hj Lt) as B.
  set (p := fun y : subject => dt_eqb (sort_key y) (sort_key a)).
  assert (p a = true) as Pa by (apply dt_eqb_spec; reflexivity).
  assert (p b = true) as Pb by (apply dt_eqb_spec; symmetry; exact K).
  apply (placed_before_filter p a b _ Pa Pb) in B.
  unfold p in B.
  rewrite (sorted_stable sort_key dt_ltb dt_ltb_irrefl dt_eqb dt_eqb_spec) in B.
  apply (placed_before_filter p a b _ Pa Pb). exact B.
Qed.

Lemma C9_witness :
  first_index (utf8 "Zoology") (map name C9_rows) <
  first_index (utf8 "Anatomy") (map name C9_rows).
Proof.
  destruct (C9_ties_keep_first_occurrence_order C9_rows) as (out & P & H).
  assert (out = C9_rows) as -> by (vm_compute in P; injection P as <-; reflexivity).
  apply (H 0 1 (nth 0 C9_rows C3_algebra) (nth 1 C9_rows C3_algebra)).
  - reflexivity.
  - reflexivity.
  - lia.
  - reflexivity.
Defined.

(** C3, amended. The reconciliation returns a list in ascending order of
    the date key, the key of an unparsable date being [datetime.min]; and a
    subject whose only occurrence has an unparsable date has a record in
    that list, without a parsed date, which stands before every record
    whose date key is later than [datetime.min], the first day of year 1. *)
Theorem C3_sorted_by_date_amended subjects_data :
  exists out,
    process_duplicates subjects_data = Some out /\
    sorted_by_date out /\
    forall s,
      group_of (name s) subjects_data = [s] -> parsed_date s = None ->
      exists r,
        In r out /\ name r = name s /\ parsed_date r = None /\
        forall t, In t out ->
          dt_ltb datetime_min (date_key (parsed_date t)) = true ->
          placed_before r t out.
Proof.
  destruct (process_duplicates_spec subjects_data) as (fs & F & P).
  eexists. split; [exact P|].
  assert (sorted_by_date (sorted sort_key dt_ltb fs)) as S.
  { apply (sorted_sorted sort_key dt_ltb dt_ltb_irrefl dt_ltb_trans dt_ltb_negtrans). }
  split; [exact S|].
  intros s G Ps.
  assert (In (name s) (map name subjects_data)) as I.
  { assert (In s (group_of (name s) subjects_data)) as Is by (rewrite G; left; reflexivity).
    apply filter_In in Is. apply in_map. tauto. }
  destruct (process_duplicates_the_record _ _ I) as (out & r & P' & Ir & Nr & U & C).
  rewrite P in P'. injection P' as <-.
  fold (group_of (name s) subjects_data) in C. rewrite G in C.
  simpl in C. injection C as <-. simpl in *.
  exists (mksubject (name s) (mark s) (get_status (mark s)) (semester s)
            (mark_display s) (release_date s) (parsed_date s)).
  split; [exact Ir|]. split; [reflexivity|]. split; [exact Ps|].
  intros t It Lt. fold (sort_key t) in Lt.
  match goal with |- placed_before ?r _ _ => set (r0 := r) in * end.
  assert (sort_key r0 = datetime_min) as K
    by (unfold sort_key, r0; simpl; rewrite Ps; reflexivity).
  assert (r0 <> t) as N.
  { intros <-. rewrite K, dt_ltb_irrefl in Lt. discriminate. }
  destruct (placed_before_total _ _ _ Ir It N) as [B|B]; [exact B|].
  apply (sorted_placed_before _ _ _ _ S) in B. unfold key_le in B.
  rewrite K in B. congruence.
Qed.

(** C3 as stated fails on the rows [C3_rows]: the date of the first subject
    parses, to [datetime.min] itself; the only occurrence of the second
    subject has a date that does not parse; the two keys are equal, the
    sort keeps the row order, and the subject without a date is not before
    the one with a valid date. *)
Lemma C3_counterexample :
  process_duplicates C3_rows = Some [C3_algebra; C3_physics] /\
  group_of (name C3_physics) C3_rows = [C3_physics] /\
  parse_date (release_date C3_physics) = None /\
  parsed_date C3_physics = None /\
  parse_date (release_date C3_algebra) = Some datetime_min /\
  parsed_date C3_algebra = Some datetime_min /\
  ~ placed_before C3_physics C3_algebra [C3_algebra; C3_physics].
Proof.
  repeat split; try (vm_compute; reflexivity).
  intros B. apply (placed_before_map name) in B.
  destruct B as (l1 & l2 & l3 & E). vm_compute in E.
  destruct l1 as [|x [|y l1]]; simpl in E.
  - discriminate E.
  - injection E as _ E. destruct l2; discriminate E.
  - injection E as _ _ E. destruct l1; discriminate E.
Qed.

Lemma C3_witness :
  exists out r t,
    process_duplicates C3_rows_ok = Some out /\
    name r = utf8 "Physics" /\ parsed_date r = None /\
    name t = utf8 "Algebra" /\ placed_before r t out.
Proof.
  destruct (C3_sorted_by_date_amended C3_rows_ok) as (out & P & _ & H).
  destruct (H (nth 1 C3_rows_ok C3_algebra)) as (r & I & N & D & B).
  - reflexivity.
  - reflexivity.
  - assert (In (nth 0 C3_rows_ok C3_algebra) out) as It.
    { vm_compute in P. injection P as <-. right. left. reflexivity. }
    exists out, r, (nth 0 C3_rows_ok C3_algebra).
    split; [exact P|]. split; [exact N|]. split; [exact D|].
    split; [reflexivity|]. apply B; [exact It|reflexivity].
Defined.

(** ** Whitespace and digits *)

Lemma in_ranges_spec c t :
  in_ranges c t = true <->
  exists r, In r t /\ (fst r <= c)%N /\ (c <= snd r)%N.
Proof.
  unfold in_ranges. rewrite existsb_exists.
  split; intros (r & I & H); exists r; split; auto.
  - apply andb_true_iff in H. rewrite !N.leb_le in H. exact H.
  - apply andb_true_iff. rewrite !N.leb_le. exact H.
Qed.

Lemma digit_not_space c : isdigit_char c = true -> isspace_char c = false.
Proof.
  intros D. destruct (isspace_char c) eqn:S; [|reflexivity].
  apply in_ranges_spec in D, S.
  destruct D as (r1 & I1 & H1), S as (r2 & I2 & H2).
  assert (forallb (fun r1 => forallb (fun r2 => negb (overlap r1 r2))
                               WHITESPACE) DIGITS = true) as Hov
    by (vm_compute; reflexivity).
  rewrite forallb_forall in Hov. specialize (Hov _ I1).
  rewrite forallb_forall in Hov. specialize (Hov _ I2).
  apply negb_true_iff in Hov. unfold overlap in Hov.
  apply andb_false_iff in Hov. rewrite !N.leb_gt in Hov. lia.
Qed.

Lemma lstrip_spaces ws s :
  forallb isspace_char ws = true -> lstrip (ws ++ s) = lstrip s.
Proof.
  induction ws as [|c ws IH]; simpl; [reflexivity|].
  intros H. apply andb_true_iff in H. destruct H as [-> H]. auto.
Qed.

Lemma lstrip_all_spaces ws : forallb isspace_char ws = true -> lstrip ws = [].
Proof.
  intros H. rewrite <- (app_nil_r ws). rewrite lstrip_spaces; auto.
Qed.

Lemma lstrip_head c s : isspace_char c = false -> lstrip (c :: s) = c :: s.
Proof. intros H. simpl. rewrite H. reflexivity. Qed.

Lemma forallb_rev {A : Type} (p : A -> bool) l :
  forallb p (rev l) = forallb p l.
Proof.
  induction l as [|x l IH]; simpl; [reflexivity|].
  rewrite forallb_app, IH. simpl. rewrite andb_true_r. apply andb_comm.
Qed.

(** A string of digits between two runs of whitespace strips to itself. *)
Lemma strip_padded ws1 ws2 id :
  forallb isspace_char ws1 = true -> forallb isspace_char ws2 = true ->
  isdigit id = true -> strip (ws1 ++ id ++ ws2) = id.
Proof.
  intros W1 W2 D. unfold strip, rstrip.
  rewrite lstrip_spaces by exact W1.
  destruct id as [|c id]; [discriminate|].
  simpl in D. apply andb_true_iff in D. destruct D as [Dc D].
  change ((c :: id) ++ ws2) with (c :: id ++ ws2).
  rewrite lstrip_head by (apply digit_not_space, Dc).
  change (c :: id ++ ws2) with ((c :: id) ++ ws2).
  rewrite rev_app_distr, lstrip_spaces by (rewrite forallb_rev; exact W2).
  assert (forallb isdigit_char (rev (c :: id)) = true) as R
    by (rewrite forallb_rev; simpl; rewrite Dc, D; reflexivity).
  destruct (rev (c :: id)) as [|z zs] eqn:E.
  - apply (f_equal (@length _)) in E. rewrite length_rev in E. discriminate.
  - simpl in R. apply andb_true_iff in R. destruct R as [Dz _].
    rewrite lstrip_head by (apply digit_not_space, Dz).
    rewrite <- E. apply rev_involutive.
Qed.

Lemma strip_all_spaces ws : forallb isspace_char ws = true -> strip ws = [].
Proof.
  intros H. unfold strip. rewrite lstrip_all_spaces by exact H. reflexivity.
Qed.

Lemma lstrip_idem s : lstrip (lstrip s) = lstrip s.
Proof.
  induction s as [|c s IH]; simpl; [reflexivity|].
  destruct (isspace_char c) eqn:E; [exact IH|]. simpl. rewrite E. reflexivity.
Qed.

Lemma lstrip_cases s :
  lstrip s = [] \/ exists c t, lstrip s = c :: t /\ isspace_char c = false.
Proof.
  induction s as [|c s IH]; simpl; [auto|].
  destruct (isspace_char c) eqn:E; [exact IH|]. right. eauto.
Qed.

Lemma rstrip_keeps_head c t :
  isspace_char c = false -> exists t', rstrip (c :: t) = c :: t'.
Proof.
  intros H. unfold rstrip. simpl.
  destruct (lstrip_cases (rev t ++ [c])) as [E|(z & u & E & Hz)].
  - exfalso. revert E. induction (rev t) as [|y l IH]; simpl.
    + rewrite H. discriminate.
    + destruct (isspace_char y); [exact IH|discriminate].
  - assert (exists v, z :: u = v ++ [c]) as (v & Ev).
    { rewrite <- E. clear E. induction (rev t) as [|y l IH]; simpl.
      - rewrite H. exists []. reflexivity.
      - destruct (isspace_char y); [exact IH|]. exists (y :: l). reflexivity. }
    rewrite E, Ev, rev_app_distr. simpl. eauto.
Qed.

Lemma strip_idem s : strip (strip s) = strip s.
Proof.
  unfold strip.
  destruct (lstrip_cases s) as [->|(c & t & -> & H)]; [reflexivity|].
  destruct (rstrip_keeps_head c t H) as (t' & E).
  assert (lstrip (rstrip (c :: t)) = rstrip (c :: t)) as ->
    by (rewrite E; apply lstrip_head, H).
  unfold rstrip. rewrite rev_involutive, lstrip_idem. reflexivity.
Qed.

Lemma in_range_spec lo hi c :
  in_range lo hi c = true <-> (lo <= c <= hi)%N.
Proof.
  unfold in_range. rewrite andb_true_iff, !N.leb_le. reflexivity.
Qed.

Ltac pick_alternative I s :=
  repeat (apply in_app_or in I; destruct I as [I|I]);
  destruct s as [|? [|? ?]];
  cbv beta iota in I;
  repeat match type of I with
  | In _ (if ?c then _ else _) => destruct c eqn:?
  | In _ (match ?c with _ => _ end) => destruct c eqn:?
  | In _ [] => destruct I
  | In _ [_] => destruct I as [I|[]]
  end;
  try (apply pair_equal_spec in I; destruct I as [<- <-]);
  repeat match goal with
  | H : _ && _ = true |- _ => apply andb_true_iff in H; destruct H
  | H : in_range _ _ _ = true |- _ => apply in_range_spec in H
  | H : (_ =? _)%N = true |- _ => apply N.eqb_eq in H
  end.

Lemma re_m_positive s m r : In (m, r) (re_m s) -> (1 <= m)%N.
Proof. unfold re_m. intros I. pick_alternative I s; lia. Qed.

Lemma re_d_positive s d r : In (d, r) (re_d s) -> (1 <= d)%N.
Proof. unfold re_d. intros I. pick_alternative I s; lia. Qed.

Lemma re_month_day_positive ms m d r :
  (forall m' r', In (m', r') ms -> (1 <= m')%N) ->
  re_month_day ms = Some (m, d, r) -> (1 <= m /\ 1 <= d)%N.
Proof.
  induction ms as [|[m0 s0] ms IH]; simpl; [discriminate|]. intros H.
  assert (forall m' r', In (m', r') ms -> (1 <= m')%N) as H'
    by (intros; eapply H; right; eauto).
  destruct (expect SLASH s0) as [s'|]; [|auto].
  destruct (re_d s') as [|[d0 rest] ds] eqn:E; [auto|].
  intros [= <- <- <-]. split.
  - eapply H. left. reflexivity.
  - eapply re_d_positive. rewrite E. left. reflexivity.
Qed.

(** No parsed date is earlier than [datetime.min]. *)
Lemma parse_date_min date_str d :
  parse_date date_str = Some d -> dt_ltb d datetime_min = false.
Proof.
  unfold parse_date, strptime.
  destruct (re_Y _) as [[y s1]|]; [|discriminate].
  destruct (expect SLASH s1) as [s2|]; [|discriminate].
  destruct (re_month_day (re_m s2)) as [[[m dd] rest]|] eqn:E; [|discriminate].
  destruct rest; [|discriminate].
  destruct (y =? 0)%N eqn:Y; [discriminate|].
  destruct (days_in_month y m <? dd)%N; [discriminate|].
  intros [= <-]. apply N.eqb_neq in Y.
  apply re_month_day_positive in E; [|apply re_m_positive].
  apply dt_ltb_false. simpl. lia.
Qed.

Lemma date_key_min date_str :
  dt_ltb (date_key (parse_date date_str)) datetime_min = false.
Proof.
  destruct (parse_date date_str) eqn:E; simpl.
  - eapply parse_date_min; eauto.
  - reflexivity.
Qed.

(** ** The grade classifier *)

Lemma status_distinct :
  STATUS_PASS <> STATUS_FAIL /\ STATUS_PASS <> STATUS_UNKNOWN /\
  STATUS_FAIL <> STATUS_UNKNOWN.
Proof. repeat split; intros H; vm_compute in H; discriminate H. Qed.

Lemma get_status_cases {A : Type} `{Floatable A} (mark : A) :
  (forall f, py_float mark = Some f -> (60 <=? f)%float = true ->
     get_status mark = STATUS_PASS) /\
  (forall f, py_float mark = Some f -> (f <? 60)%float = true ->
     get_status mark = STATUS_FAIL) /\
  (py_float mark = None -> get_status mark = STATUS_UNKNOWN).
Proof.
  unfold get_status. repeat split.
  - intros f -> ->. reflexivity.
  - intros f -> L. rewrite (float_lt_not_ge _ _ L). reflexivity.
  - intros ->. reflexivity.
Qed.

(** [nan] converts, and is not at least 60. *)
Lemma get_status_nan : get_status nan = STATUS_FAIL.
Proof. reflexivity. Qed.

Lemma get_status_float (m : float) :
  get_status m = if (60 <=? m)%float then STATUS_PASS else STATUS_FAIL.
Proof. reflexivity. Qed.

(** C5. Whatever the type of the input and its conversion to a float:
    when the conversion gives a number that is at least 60 the answer is
    the pass status, when it gives a number that is less than 60 the answer
    is the fail status, and when the conversion fails the answer is the
    unknown status. The mark 60.0 passes and the mark 59.99 (the float
    nearest to it) fails; the three answers are different strings. *)
Theorem C5_get_status :
  (forall (A : Type) (F : Floatable A) (mark : A),
     (forall f, py_float mark = Some f -> (60 <=? f)%float = true ->
        get_status mark = STATUS_PASS) /\
     (forall f, py_float mark = Some f -> (f <? 60)%float = true ->
        get_status mark = STATUS_FAIL) /\
     (py_float mark = None -> get_status mark = STATUS_UNKNOWN)) /\
  get_status 60%float = STATUS_PASS /\
  get_status 0x1.dfeb851eb851fp+5%float = STATUS_FAIL /\
  STATUS_PASS <> STATUS_FAIL /\ STATUS_PASS <> STATUS_UNKNOWN /\
  STATUS_FAIL <> STATUS_UNKNOWN.
Proof.
  split; [intros A F mark; apply get_status_cases|].
  split; [reflexivity|]. split; [reflexivity|]. apply status_distinct.
Qed.

Lemma C5_witness :
  get_status 75%float = STATUS_PASS /\
  get_status 40%float = STATUS_FAIL /\
  get_status tt = STATUS_UNKNOWN.
Proof.
  split; [|split].
  - apply (proj1 (proj1 C5_get_status float _ 75%float) 75%float);
      reflexivity.
  - apply (proj1 (proj2 (proj1 C5_get_status float _ 40%float)) 40%float);
      reflexivity.
  - apply (proj2 (proj2 (proj1 C5_get_status unit _ tt))). reflexivity.
Defined.

(** ** The formatter *)

Lemma startswith_app p s : startswith p (p ++ s) = true.
Proof.
  induction p as [|c p IH]; simpl; [reflexivity|].
  rewrite N.eqb_refl. exact IH.
Qed.

Lemma CHECK_not_CROSS s : startswith CHECK (CROSS ++ s) = false.
Proof. reflexivity. Qed.

Lemma CROSS_not_CHECK s : startswith CROSS (CHECK ++ s) = false.
Proof. reflexivity. Qed.

Lemma carries_check_spec s : carries_check s = (60 <=? mark s)%float.
Proof.
  unfold carries_check, annotated_mark.
  destruct (60 <=? mark s)%float.
  - apply startswith_app.
  - apply CHECK_not_CROSS.
Qed.

Lemma carries_cross_spec s : carries_cross s = negb (60 <=? mark s)%float.
Proof.
  unfold carries_cross, annotated_mark.
  destruct (60 <=? mark s)%float.
  - apply CROSS_not_CHECK.
  - apply startswith_app.
Qed.

Lemma subject_lines_mark_line subjects i cur s :
  In s subjects -> In (mark_line s) (subject_lines i cur subjects).
Proof.
  revert i cur. induction subjects as [|x subjects IH]; simpl; [tauto|].
  intros i cur [->|I]; apply in_or_app; right.
  - right. left. reflexivity.
  - right. right. right. apply IH, I.
Qed.

Lemma passed_count_spec subjects :
  passed_count subjects = length (filter carries_check subjects).
Proof.
  unfold passed_count. f_equal. apply filter_ext. intros s.
  symmetry. apply carries_check_spec.
Qed.

Lemma combine_group_status n occ r :
  combine_group n occ = Some r -> status r = get_status (mark r).
Proof.
  unfold combine_group. destruct (sorted _ _ occ); [discriminate|].
  destruct (py_max _ _ occ); [|discriminate]. intros [= <-]. reflexivity.
Qed.

Lemma process_duplicates_status l out r :
  process_duplicates l = Some out -> In r out ->
  status r = get_status (mark r).
Proof.
  destruct (process_duplicates_spec l) as (fs & F & P). rewrite P.
  intros [= <-] I. apply sorted_In in I.
  destruct (Forall2_In_r _ _ _ _ F I) as (n & _ & C).
  eapply combine_group_status; eauto.
Qed.

(** C8. For every subject, the line of its mark starts with the check
    mark exactly when the classifier gives the pass status for its mark,
    and with the cross exactly when the classifier gives the fail status;
    the unknown status never occurs. The status stored in a reconciled
    record is the classifier's answer for the record's mark. In the report
    of any student the mark line of every subject is present, and the pass
    count, which the last line shows, is the number of subjects whose mark
    line carries the check mark. *)
Theorem C8_annotation_agrees_with_status :
  (forall s : subject,
     (carries_check s = true <-> get_status (mark s) = STATUS_PASS) /\
     (carries_cross s = true <-> get_status (mark s) = STATUS_FAIL) /\
     get_status (mark s) <> STATUS_UNKNOWN) /\
  (forall subjects_data out r,
     process_duplicates subjects_data = Some out -> In r out ->
     status r = get_status (mark r)) /\
  (forall d : student_data,
     (forall s, In s (sd_subjects d) -> In (mark_line s) (report_lines d)) /\
     passed_count (sd_subjects d) =
       length (filter carries_check (sd_subjects d)) /\
     last (report_lines d) [] =
       counts_line
         (length (filter carries_check (sd_subjects d)))
         (length (sd_subjects d) -
          length (filter carries_check (sd_subjects d)))).
Proof.
  destruct status_distinct as (PF & PU & FU).
  split; [|split].
  - intros s. rewrite carries_check_spec, carries_cross_spec, get_status_float.
    destruct (60 <=? mark s)%float; simpl; repeat split; intros; try reflexivity;
      try discriminate; congruence.
  - apply process_duplicates_status.
  - intros d. split; [|split].
    + intros s I. unfold report_lines. cbv zeta.
      apply in_or_app. right. apply in_or_app. left.
      apply subject_lines_mark_line, I.
    + apply passed_count_spec.
    + unfold report_lines. cbv zeta.
      rewrite <- passed_count_spec.
      match goal with
      | |- last (?a ++ ?b ++ [?x; ?y; ?z]) _ = _ =>
          change (a ++ b ++ [x; y; z]) with (a ++ b ++ [x; y] ++ [z]);
          rewrite !app_assoc, last_last
      end.
      reflexivity.
Qed.

Lemma C8_witness :
  In (mark_line (C6_row 0)) (report_lines C8_student) /\
  status (C6_row 0) = get_status (mark (C6_row 0)).
Proof.
  split.
  - apply (proj1 (proj2 (proj2 C8_annotation_agrees_with_status) C8_student)).
    simpl. left. reflexivity.
  - apply (proj1 (proj2 C8_annotation_agrees_with_status)
             [C6_row 0] [C6_row 0] (C6_row 0)).
    + reflexivity.
    + simpl. left. reflexivity.
Defined.

(** ** The message handler *)

Lemma handle_invalid web text :
  isdigit (strip text) = false ->
  handle_student_id web text = reply_text INVALID_ID_MESSAGE.
Proof. intros H. unfold handle_student_id. rewrite H. reflexivity. Qed.

Lemma handle_valid web text :
  isdigit (strip text) = true ->
  exists rest,
    events (handle_student_id web text) =
    SendChatAction :: ReplyText SEARCHING_MESSAGE :: HttpGet (strip text) :: rest.
Proof.
  intros H. unfold handle_student_id. rewrite H. simpl.
  unfold bind, send_chat_action, reply_text, fetch, events.
  destruct (fetch_student_data (web (strip text)) (strip text)) as [d|].
  - destruct (deliver _) as [es u]. simpl. eauto.
  - simpl. eauto.
Qed.

Lemma handle_strip web text :
  handle_student_id web text = handle_student_id web (strip text).
Proof. unfold handle_student_id. rewrite strip_idem. reflexivity. Qed.

(** C7, amended. Whatever the site would return: when the text, stripped
    of surrounding whitespace, is empty or has a character that
    [str.isdigit] does not accept, the only thing the handler does is one
    reply with the fixed message on invalid identifiers, and it makes no
    request; so it is for "abc123". *)
Theorem C7_invalid_id_amended :
  (forall web text,
     isdigit (strip text) = false ->
     handle_student_id web text = ([ReplyText INVALID_ID_MESSAGE], tt) /\
     requests (events (handle_student_id web text)) = []) /\
  (forall web,
     handle_student_id web (utf8 "abc123") = ([ReplyText INVALID_ID_MESSAGE], tt)).
Proof.
  split.
  - intros web text H. rewrite (handle_invalid web text H). split; reflexivity.
  - intros web. reflexivity.
Qed.

Lemma C7_witness :
  handle_student_id (fun _ => None) (utf8 "12a") =
    ([ReplyText INVALID_ID_MESSAGE], tt) /\
  requests (events (handle_student_id (fun _ => None) (utf8 "12a"))) = [].
Proof.
  apply (proj1 C7_invalid_id_amended (fun _ => None) (utf8 "12a")). reflexivity.
Defined.

(** C7 as stated fails on the one-character text "²" (superscript two,
    U+00B2): it is not a decimal digit, yet [str.isdigit] accepts it and
    the request is made. *)
Lemma C7_counterexample :
  only_decimal_digits [0xB2%N] = false /\
  forallb (in_range 0x30 0x39) [0xB2%N] = false /\
  events (handle_student_id (fun _ => None) [0xB2%N]) =
    [SendChatAction; ReplyText SEARCHING_MESSAGE; HttpGet [0xB2%N];
     ReplyText NOT_FOUND_MESSAGE] /\
  requests (events (handle_student_id (fun _ => None) [0xB2%N])) = [[0xB2%N]].
Proof. repeat split; reflexivity. Qed.

(** C10. The handler treats a text as it treats the text stripped of
    leading and trailing whitespace. A string of digits between two runs of
    whitespace is handled as the string of digits alone: the typing
    action, the searching reply and the request for that identifier follow;
    so it is for " 202112345 ". A text of whitespace only, the empty text
    included, gets the one reply on invalid identifiers. *)
Theorem C10_strip_before_validation :
  (forall web text,
     handle_student_id web text = handle_student_id web (strip text)) /\
  (forall web ws1 ws2 id,
     forallb isspace_char ws1 = true -> forallb isspace_char ws2 = true ->
     isdigit id = true ->
     handle_student_id web (ws1 ++ id ++ ws2) = handle_student_id web id /\
     exists rest,
       events (handle_student_id web (ws1 ++ id ++ ws2)) =
       SendChatAction :: ReplyText SEARCHING_MESSAGE :: HttpGet id :: rest) /\
  (forall web text,
     forallb isspace_char text = true ->
     handle_student_id web text = ([ReplyText INVALID_ID_MESSAGE], tt)) /\
  (forall web, exists rest,
     events (handle_student_id web (utf8 " 202112345 ")) =
     SendChatAction :: ReplyText SEARCHING_MESSAGE ::
     HttpGet (utf8 "202112345") :: rest).
Proof.
  split; [exact handle_strip|]. split; [|split].
  - intros web ws1 ws2 id W1 W2 D.
    pose proof (strip_padded ws1 ws2 id W1 W2 D) as S.
    split.
    + rewrite handle_strip, S. reflexivity.
    + destruct (handle_valid web (ws1 ++ id ++ ws2)) as (rest & E).
      * rewrite S. exact D.
      * rewrite S in E. eauto.
  - intros web text W. apply handle_invalid.
    rewrite strip_all_spaces by exact W. reflexivity.
  - intros web. apply (handle_valid web (utf8 " 202112345 ")). reflexivity.
Qed.

Lemma C10_witness :
  (handle_student_id C6_web (utf8 " 202112345 ") =
     handle_student_id C6_web (utf8 "202112345") /\
   exists rest,
     events (handle_student_id C6_web (utf8 " 202112345 ")) =
     SendChatAction :: ReplyText SEARCHING_MESSAGE ::
     HttpGet (utf8 "202112345") :: rest) /\
  handle_student_id C6_web [SPACE; 9%N; NL] = ([ReplyText INVALID_ID_MESSAGE], tt).
Proof.
  split.
  - apply (proj1 (proj2 C10_strip_before_validation) C6_web [SPACE] [SPACE] (utf8 "202112345"));
      reflexivity.
  - apply (proj1 (proj2 (proj2 C10_strip_before_validation)) C6_web [SPACE; 9%N; NL]).
    reflexivity.
Defined.

(** ** Delivery in chunks *)

Lemma cons_head_nonempty c ps : cons_head c ps <> [].
Proof. destruct ps; discriminate. Qed.

Lemma split_nlnl_nonempty s : split_nlnl s <> [].
Proof.
  destruct s as [|c [|c' s]]; [discriminate|discriminate|].
  change (split_nlnl (c :: c' :: s)) with
    (if (c =? NL)%N && (c' =? NL)%N then [] :: split_nlnl s
     else cons_head c (split_nlnl (c' :: s))).
  destruct ((c =? NL)%N && (c' =? NL)%N);
    [discriminate|apply cons_head_nonempty].
Qed.

Lemma join_cons_head c ps :
  ps <> [] -> join NLNL (cons_head c ps) = c :: join NLNL ps.
Proof.
  destruct ps as [|p [|q ps]]; simpl; intros H; congruence.
Qed.

Lemma join_nil_cons ps : ps <> [] -> join NLNL ([] :: ps) = NLNL ++ join NLNL ps.
Proof. destruct ps; simpl; intros H; congruence. Qed.

(** Joining the pieces with the separator gives the text back. *)
Lemma join_split_nlnl s : join NLNL (split_nlnl s) = s.
Proof.
  assert (forall n s, length s <= n -> join NLNL (split_nlnl s) = s) as H.
  { clear s. induction n as [|n IH]; intros s L.
    - destruct s; [reflexivity|simpl in L; lia].
    - destruct s as [|c [|c' s]]; [reflexivity|reflexivity|].
      simpl in L.
      change (split_nlnl (c :: c' :: s)) with
        (if (c =? NL)%N && (c' =? NL)%N then [] :: split_nlnl s
         else cons_head c (split_nlnl (c' :: s))).
      destruct ((c =? NL)%N && (c' =? NL)%N) eqn:E.
      + apply andb_true_iff in E. destruct E as [E1 E2].
        apply N.eqb_eq in E1, E2. subst.
        rewrite join_nil_cons by apply split_nlnl_nonempty.
        rewrite IH by lia. reflexivity.
      + rewrite join_cons_head by apply split_nlnl_nonempty.
        rewrite IH by (simpl; lia). reflexivity. }
  apply (H (length s)). lia.
Qed.

Lemma with_separators_join parts :
  parts <> [] -> with_separators parts = join NLNL parts ++ NLNL.
Proof.
  unfold with_separators.
  induction parts as [|p parts IH]; [congruence|]. intros _.
  destruct parts as [|q parts].
  - simpl. rewrite app_nil_r. reflexivity.
  - change (join NLNL (p :: q :: parts)) with (p ++ NLNL ++ join NLNL (q :: parts)).
    simpl map in *. simpl concat in *. rewrite IH by discriminate.
    rewrite <- !app_assoc. reflexivity.
Qed.

Lemma reply_texts_app es es' :
  reply_texts (es ++ es') = reply_texts es ++ reply_texts es'.
Proof. unfold reply_texts. apply flat_map_app. Qed.

(** The chunks sent by the loop, followed by what is left in
    [current_message], are [current_message] and the parts with their
    separators, in order. *)
Lemma send_parts_concat parts cur :
  concat (reply_texts (events (send_parts parts cur))) ++ snd (send_parts parts cur) =
  cur ++ with_separators parts.
Proof.
  revert cur. induction parts as [|p parts IH]; intros cur; simpl.
  - rewrite app_nil_r. reflexivity.
  - unfold with_separators in *. simpl.
    destruct (LIMIT <? len (cur ++ p ++ [NL; NL]))%nat.
    + specialize (IH (p ++ [NL; NL])).
      unfold bind, events in *.
      destruct (send_parts parts (p ++ [NL; NL])) as [es fin]. simpl in *.
      destruct cur as [|c cur]; simpl.
      * exact IH.
      * rewrite <- app_assoc. f_equal. f_equal. exact IH.
    + rewrite IH, <- !app_assoc. reflexivity.
Qed.

Lemma snd_bind_const {A B : Type} (c : io A) (k : io B) :
  snd (c ;; k) = snd k.
Proof. unfold bind. destruct c, k. reflexivity. Qed.

Lemma send_parts_final parts cur :
  parts <> [] \/ cur <> [] -> snd (send_parts parts cur) <> [].
Proof.
  revert cur. induction parts as [|p parts IH]; intros cur H.
  - destruct H as [H|H]; [congruence|exact H].
  - simpl. destruct (LIMIT <? _)%nat.
    + rewrite snd_bind_const. apply IH. right. destruct p; discriminate.
    + apply IH. right. destruct cur; [destruct p|]; discriminate.
Qed.

Lemma send_parts_final_nonempty parts cur :
  parts <> [] -> snd (send_parts parts cur) <> [].
Proof. intros H. apply send_parts_final. left. exact H. Qed.

Lemma chunks_long m :
  (LIMIT <? len m)%nat = true ->
  chunks m =
  reply_texts (events (send_parts (split_nlnl m) [])) ++
  [snd (send_parts (split_nlnl m) [])].
Proof.
  intros L. unfold chunks, deliver. rewrite L. unfold bind, events.
  pose proof (send_parts_final_nonempty (split_nlnl m) [] (split_nlnl_nonempty m)) as NE.
  destruct (send_parts (split_nlnl m) []) as [es fin]. simpl in *.
  destruct fin; [congruence|]. simpl. rewrite reply_texts_app. reflexivity.
Qed.

(** Concatenated in order, the chunks are the message followed by one
    separator. *)
Lemma chunks_concat m :
  (LIMIT <? len m)%nat = true -> concat (chunks m) = m ++ NLNL.
Proof.
  intros L. rewrite chunks_long by exact L.
  rewrite concat_app. simpl. rewrite app_nil_r.
  rewrite send_parts_concat. simpl.
  rewrite with_separators_join by apply split_nlnl_nonempty.
  rewrite join_split_nlnl. reflexivity.
Qed.

Lemma send_parts_silent parts cur :
  cur <> [] -> parts <> [] ->
  reply_texts (events (send_parts parts cur)) = [] ->
  (len (cur ++ with_separators parts) <= LIMIT)%nat.
Proof.
  revert cur. induction parts as [|p parts IH]; [congruence|].
  intros cur NC _. simpl. unfold with_separators. simpl.
  destruct (LIMIT <? len (cur ++ p ++ [NL; NL]))%nat eqn:E.
  - unfold bind, events, reply_text. destruct cur as [|c cur]; [congruence|].
    destruct (send_parts parts (p ++ [NL; NL])). simpl. intros H. discriminate H.
  - intros S. destruct parts as [|q parts].
    + simpl. rewrite app_nil_r. apply Nat.ltb_ge in E. exact E.
    + rewrite app_assoc.
      replace ((cur ++ p ++ NLNL) ++ concat (map (fun p0 => p0 ++ NLNL) (q :: parts)))
        with ((cur ++ p ++ [NL; NL]) ++ with_separators (q :: parts)) by reflexivity.
      apply IH; [destruct cur; [destruct p|]; discriminate|discriminate|exact S].
Qed.

Lemma send_parts_first p parts :
  send_parts (p :: parts) [] = send_parts parts (p ++ [NL; NL]).
Proof.
  simpl. destruct (LIMIT <? _)%nat; [|reflexivity].
  unfold bind, ret. destruct (send_parts parts _). reflexivity.
Qed.

(** A long message with a separator in it goes out in two chunks at least. *)
Lemma chunks_at_least_two m :
  (LIMIT <? len m)%nat = true -> (2 <= length (split_nlnl m))%nat ->
  (2 <= length (chunks m))%nat.
Proof.
  intros L P. rewrite chunks_long by exact L. rewrite length_app. simpl.
  destruct (reply_texts (events (send_parts (split_nlnl m) []))) eqn:E;
    [|simpl; lia].
  exfalso.
  pose proof (join_split_nlnl m) as J.
  destruct (split_nlnl m) as [|p [|q parts]]; simpl in P; try lia.
  rewrite send_parts_first in E.
  apply send_parts_silent in E; [|destruct p; discriminate|discriminate].
  assert ((p ++ [NL; NL]) ++ with_separators (q :: parts) = m ++ NLNL) as Q.
  { change ((p ++ [NL; NL]) ++ with_separators (q :: parts)) with
      (with_separators (p :: q :: parts)).
    rewrite with_separators_join by discriminate. rewrite J. reflexivity. }
  rewrite Q in E. apply Nat.ltb_lt in L. unfold len in *.
  rewrite length_app in E. lia.
Qed.

Lemma send_parts_chunks parts all cur :
  incl parts all -> (cur = [] \/ chunk_ok all cur) ->
  Forall (chunk_ok all) (reply_texts (events (send_parts parts cur))) /\
  (snd (send_parts parts cur) = [] \/ chunk_ok all (snd (send_parts parts cur))).
Proof.
  revert cur. induction parts as [|p parts IH]; intros cur I C; simpl.
  - split; [constructor|exact C].
  - assert (incl parts all) as I' by (intros x Hx; apply I; right; exact Hx).
    destruct (LIMIT <? len (cur ++ p ++ [NL; NL]))%nat eqn:E.
    + destruct (IH (p ++ [NL; NL]) I') as (F & G).
      { right. right. exists p. split; [apply I; left; reflexivity|reflexivity]. }
      unfold bind, events in *.
      destruct (send_parts parts (p ++ [NL; NL])) as [es fin]. simpl in *.
      destruct cur as [|c cur]; simpl.
      * split; assumption.
      * split; [|exact G]. constructor; [|exact F].
        destruct C as [C|C]; [discriminate|exact C].
    + apply IH; [exact I'|]. right. left. apply Nat.ltb_ge in E. exact E.
Qed.

Lemma chunks_ok m :
  (LIMIT <? len m)%nat = true -> Forall (chunk_ok (split_nlnl m)) (chunks m).
Proof.
  intros L. rewrite chunks_long by exact L.
  destruct (send_parts_chunks (split_nlnl m) (split_nlnl m) [])
    as (F & G); [apply incl_refl|left; reflexivity|].
  apply Forall_app. split; [exact F|]. constructor; [|constructor].
  destruct G as [G|G]; [|exact G].
  exfalso. eapply send_parts_final_nonempty; [apply split_nlnl_nonempty|exact G].
Qed.

(** When every part fits, with its separator, every chunk is within the
    limit. *)
Lemma chunks_within_limit m :
  (LIMIT <? len m)%nat = true ->
  Forall (fun p => (len p + 2 <= LIMIT)%nat) (split_nlnl m) ->
  Forall (fun chunk => (len chunk <= LIMIT)%nat) (chunks m).
Proof.
  intros L F. pose proof (chunks_ok m L) as C.
  rewrite Forall_forall in *. intros chunk I.
  destruct (C chunk I) as [H|(p & Ip & ->)]; [exact H|].
  specialize (F p Ip). unfold len in *. rewrite length_app. simpl. lia.
Qed.

Lemma length_cons_head c ps :
  ps <> [] -> length (cons_head c ps) = length ps.
Proof. destruct ps; [congruence|reflexivity]. Qed.

Lemma split_nlnl_separator a b :
  (2 <= length (split_nlnl (a ++ NLNL ++ b)))%nat.
Proof.
  pose proof (split_nlnl_nonempty b) as NB.
  induction a as [|c a IH].
  - simpl. destruct (split_nlnl b); [congruence|simpl; lia].
  - destruct (a ++ NLNL ++ b) as [|c' s] eqn:E.
    + destruct a; discriminate E.
    + change ((c :: a) ++ NLNL ++ b) with (c :: (a ++ NLNL ++ b)). rewrite E.
      change (split_nlnl (c :: c' :: s)) with
        (if (c =? NL)%N && (c' =? NL)%N then [] :: split_nlnl s
         else cons_head c (split_nlnl (c' :: s))).
      destruct ((c =? NL)%N && (c' =? NL)%N).
      * pose proof (split_nlnl_nonempty s).
        destruct (split_nlnl s); [congruence|simpl; lia].
      * rewrite length_cons_head by apply split_nlnl_nonempty. exact IH.
Qed.

(** A report has a double newline after its second line. *)
Lemma report_separator d :
  sd_subjects d <> [] ->
  exists a b, format_student_message (Some d) = a ++ NLNL ++ b.
Proof.
  intros NE. unfold format_student_message.
  destruct (sd_subjects d) as [|s subjects] eqn:E; [congruence|].
  unfold report_lines. rewrite E. cbv zeta.
  set (h1 := utf8 _ ++ sd_name d ++ _). set (h2 := utf8 _ ++ sd_id d).
  set (tl := subject_lines 0 None (s :: subjects) ++ _).
  assert (tl <> []) as T by (unfold tl; simpl; discriminate).
  exists (h1 ++ [NL] ++ h2), (join [NL] tl).
  change ([h1; h2; []] ++ tl) with (h1 :: h2 :: [] :: tl).
  destruct tl as [|x tl']; [congruence|].
  simpl. rewrite <- !app_assoc. reflexivity.
Qed.

Lemma no_data_message_short : (LIMIT <? len NO_DATA_MESSAGE)%nat = false.
Proof. reflexivity. Qed.

(** A report beyond the limit is sent in two chunks at least; the chunks,
    in order, make up the report followed by one separator; and a chunk
    beyond the limit is one single part of the report. *)
Lemma deliver_report d :
  let m := format_student_message (Some d) in
  (LIMIT <? len m)%nat = true ->
  (2 <= length (chunks m))%nat /\
  concat (chunks m) = m ++ NLNL /\
  Forall (chunk_ok (split_nlnl m)) (chunks m).
Proof.
  intros m L. split; [|split].
  - apply chunks_at_least_two; [exact L|].
    destruct (sd_subjects d) as [|s subjects] eqn:E.
    + exfalso. unfold m, format_student_message in L. rewrite E in L.
      rewrite no_data_message_short in L. discriminate.
    + destruct (report_separator d) as (a & b & R); [rewrite E; discriminate|].
      unfold m. rewrite R. apply split_nlnl_separator.
  - apply chunks_concat, L.
  - apply chunks_ok, L.
Qed.

(** C6, where the code falls short of it: the page [C6_page] of 150
    subjects. The report has more than 4000 characters and goes out, after
    the searching reply, in three chunks that together are the report
    followed by one separator; the second chunk, the lines of all the
    subjects, which no double newline divides, has more than 4000
    characters, and more than the 4096 of the platform. *)
Theorem C6_oversized_chunk :
  exists d header body summary,
    fetch_student_data (C6_web (utf8 "202112345")) (utf8 "202112345") = Some d /\
    (LIMIT <? len (format_student_message (Some d)))%nat = true /\
    reply_texts C6_events = [SEARCHING_MESSAGE; header; body; summary] /\
    header ++ body ++ summary = format_student_message (Some d) ++ NLNL /\
    (LIMIT <? len body)%nat = true /\ (4096 <? len body)%nat = true.
Proof.
  eexists. eexists. eexists. eexists.
  split; [vm_compute; reflexivity|].
  split; [vm_compute; reflexivity|].
  split; [vm_compute; reflexivity|].
  split; [vm_compute; reflexivity|].
  split; vm_compute; reflexivity.
Qed.

(** ** Reconciling once more *)

Lemma insert_sorted_least {A K : Type} (key : A -> K) (ltb : K -> K -> bool) x l :
  Forall (key_le key ltb x) l -> insert_sorted key ltb x l = x :: l.
Proof.
  destruct l as [|y l]; [reflexivity|]. intros F. inversion F as [|? ? H _]; subst.
  simpl. unfold key_le in H. rewrite H. reflexivity.
Qed.

(** Sorting a sorted list leaves it as it is. *)
Lemma sorted_of_sorted {A K : Type} (key : A -> K) (ltb : K -> K -> bool) l :
  StronglySorted (key_le key ltb) l -> sorted key ltb l = l.
Proof.
  induction 1 as [|x l S IH F]; simpl; [reflexivity|].
  rewrite IH. apply insert_sorted_least, F.
Qed.

Lemma distinct_of_NoDup l : NoDup l -> distinct l = l.
Proof.
  induction 1 as [|x l NI ND IH]; simpl; [reflexivity|].
  rewrite IH. f_equal. apply forallb_filter_id.
  apply forallb_forall. intros y Iy. apply negb_true_iff, str_eqb_neq.
  intros ->. contradiction.
Qed.

Lemma group_of_unique l r :
  NoDup (map name l) -> In r l -> group_of (name r) l = [r].
Proof.
  unfold group_of. induction l as [|x l IH]; simpl; [tauto|].
  intros ND. inversion ND as [|? ? NI ND']; subst. intros [->|I].
  - unfold has_name at 1. rewrite str_eqb_refl. f_equal.
    apply filter_has_name_nil. exact NI.
  - unfold has_name at 1.
    replace (str_eqb (name x) (name r)) with false; [auto|].
    symmetry. apply str_eqb_neq. intros E. apply NI. rewrite E.
    apply in_map. exact I.
Qed.

Lemma combine_group_single r :
  status r = get_status (mark r) -> combine_group (name r) [r] = Some r.
Proof.
  intros E. unfold combine_group. simpl. rewrite <- E.
  destruct r. reflexivity.
Qed.

Lemma Forall2_same_entries l out :
  NoDup (map name out) ->
  (forall r, In r l -> In r out) ->
  (forall r, In r out -> status r = get_status (mark r)) ->
  Forall2 (fun n e => combine_group n (group_of n out) = Some e) (map name l) l.
Proof.
  intros ND Sub St. induction l as [|r l IH]; simpl; constructor.
  - rewrite group_of_unique by (auto; apply Sub; left; reflexivity).
    apply combine_group_single, St, Sub. left. reflexivity.
  - apply IH. intros r' I. apply Sub. right. exact I.
Qed.

Lemma Forall2_functional {A B : Type} (R : A -> B -> Prop) l l1 l2 :
  (forall a b b', R a b -> R a b' -> b = b') ->
  Forall2 R l l1 -> Forall2 R l l2 -> l1 = l2.
Proof.
  intros Fn H. revert l2. induction H as [|a b l l1 Hab H IH]; intros l2 H2;
    inversion H2; subst; [reflexivity|].
  f_equal; [eapply Fn; eauto|auto].
Qed.

(** X6. The reconciliation of a reconciled list gives the list back. *)
Theorem process_duplicates_idempotent subjects_data :
  exists out,
    process_duplicates subjects_data = Some out /\
    process_duplicates out = Some out.
Proof.
  destruct (process_duplicates_spec subjects_data) as (fs & F & P).
  exists (sorted sort_key dt_ltb fs). split; [exact P|].
  set (out := sorted sort_key dt_ltb fs) in *.
  assert (NoDup (map name out)) as ND by (eapply process_duplicates_NoDup; eauto).
  assert (forall r, In r out -> status r = get_status (mark r)) as St
    by (intros r; eapply process_duplicates_status; eauto).
  destruct (process_duplicates_spec out) as (fs' & F' & P').
  rewrite (distinct_of_NoDup _ ND) in F'.
  assert (fs' = out) as ->.
  { eapply Forall2_functional; [|exact F'|apply Forall2_same_entries; auto].
    intros n b b' H1 H2. congruence. }
  rewrite P'. f_equal. apply sorted_of_sorted.
  apply (sorted_sorted sort_key dt_ltb dt_ltb_irrefl dt_ltb_trans dt_ltb_negtrans).
Qed.

(** ** Extraction of the rows *)

Section RowsFacts.
Context {float_of_str : Floatable str}.

Lemma row_subject_well_formed cells e :
  row_subject cells = Some e -> well_formed e.
Proof.
  unfold row_subject.
  destruct (4 <=? length cells)%nat; [|discriminate].
  destruct (strip (nth 0 cells [])) as [|c n] eqn:En; [discriminate|].
  destruct (strip (nth 2 cells [])) as [|c' m] eqn:Em; [discriminate|].
  destruct (py_float (convert_arabic_numbers (c' :: m))) as [mk|] eqn:Ef;
    [|discriminate].
  intros [= <-]. unfold well_formed, row_entry. simpl.
  repeat split; try discriminate; try assumption; try reflexivity.
  - rewrite <- En. apply strip_idem.
  - rewrite <- Em. apply strip_idem.
  - apply strip_idem.
Qed.

Lemma row_subject_fields cells e :
  row_subject cells = Some e ->
  (4 <= length cells)%nat /\
  name e = strip (nth 0 cells []) /\
  semester e = strip (nth 1 cells []) /\
  mark_display e = strip (nth 2 cells []) /\
  release_date e = strip (last cells []).
Proof.
  unfold row_subject.
  destruct (4 <=? length cells)%nat eqn:L; [|discriminate].
  destruct (strip (nth 0 cells [])) as [|c n] eqn:En; [discriminate|].
  destruct (strip (nth 2 cells [])) as [|c' m] eqn:Em; [discriminate|].
  destruct (py_float (convert_arabic_numbers (c' :: m))) as [mk|];
    [|discriminate].
  intros [= <-]. simpl. apply Nat.leb_le in L. auto.
Qed.

Lemma rows_loop_app a b : rows_loop (a ++ b) = rows_loop a ++ rows_loop b.
Proof.
  induction a as [|cells a IH]; simpl; [reflexivity|].
  destruct (row_subject cells); simpl; rewrite IH; reflexivity.
Qed.

Lemma rows_loop_In rows e :
  In e (rows_loop rows) <->
  exists cells, In cells rows /\ row_subject cells = Some e.
Proof.
  induction rows as [|cells rows IH]; simpl.
  - split; [tauto|]. intros (c & [] & _).
  - destruct (row_subject cells) as [e'|] eqn:E; simpl; rewrite IH.
    + split.
      * intros [<-|(c & I & R)]; eauto.
      * intros (c & [<-|I] & R); [left; congruence|eauto].
    + split.
      * intros (c & I & R). eauto.
      * intros (c & [<-|I] & R); [congruence|eauto].
Qed.

Lemma rows_loop_length rows : (length (rows_loop rows) <= length rows)%nat.
Proof.
  induction rows as [|cells rows IH]; simpl; [lia|].
  destruct (row_subject cells); simpl; lia.
Qed.

(** X4. Rows are judged one by one and in order; no row gives more than
    one entry; every entry comes from a row of four cells at least, whose
    first three cells and last cell, stripped, are its name, semester,
    mark string and date string, and is well formed; and a row with fewer
    than four cells, with an empty name or mark, or with a mark that
    [float] refuses, is passed over. *)
Theorem rows_loop_entries :
  (forall a b, rows_loop (a ++ b) = rows_loop a ++ rows_loop b) /\
  (forall rows, (length (rows_loop rows) <= length rows)%nat) /\
  (forall rows e,
     In e (rows_loop rows) ->
     well_formed e /\
     exists cells,
       In cells rows /\ (4 <= length cells)%nat /\
       name e = strip (nth 0 cells []) /\
       semester e = strip (nth 1 cells []) /\
       mark_display e = strip (nth 2 cells []) /\
       release_date e = strip (last cells [])) /\
  (forall cells : list str,
     (length cells < 4)%nat \/ strip (nth 0 cells []) = [] \/
     strip (nth 2 cells []) = [] \/
     py_float (convert_arabic_numbers (strip (nth 2 cells []))) = None ->
     rows_loop [cells] = []).
Proof.
  split; [exact rows_loop_app|]. split; [exact rows_loop_length|]. split.
  - intros rows e I. apply rows_loop_In in I. destruct I as (cells & I & R).
    split; [eapply row_subject_well_formed; eauto|].
    exists cells. split; [exact I|]. apply row_subject_fields, R.
  - intros cells H. cbn [rows_loop]. unfold row_subject.
    match goal with
    | |- context [(4 <=? ?n)%nat] => destruct (Nat.leb_spec 4 n) as [L|L]
    end; [|reflexivity].
    destruct (strip (nth 0 cells [])) as [|c n]; [reflexivity|].
    destruct (strip (nth 2 cells [])) as [|c' m]; [reflexivity|].
    destruct H as [H|[H|[H|H]]];
      [unfold str in *; lia|discriminate|discriminate|].
    rewrite H. reflexivity.
Qed.

(** ** Invariants along the pipeline *)

Lemma combine_group_fields n occ r :
  combine_group n occ = Some r ->
  exists newest oldest,
    In newest occ /\ In oldest occ /\
    r = mksubject n (mark newest) (get_status (mark newest)) (semester oldest)
          (mark_display newest) (release_date oldest) (parsed_date oldest).
Proof.
  unfold combine_group.
  destruct (sorted sort_key dt_ltb occ) as [|oldest t] eqn:S; [discriminate|].
  destruct (py_max mark PrimFloat.ltb occ) as [newest|] eqn:M; [|discriminate].
  intros [= <-]. exists newest, oldest. repeat split.
  - destruct occ as [|x occ]; [discriminate|]. simpl in M. injection M as <-.
    destruct (max_from_spec mark PrimFloat.ltb float_lt_irrefl float_lt_trans occ x)
      as (I & _). exact I.
  - apply (sorted_In sort_key dt_ltb). rewrite S. left. reflexivity.
Qed.

Lemma process_duplicates_fields l out r :
  process_duplicates l = Some out -> In r out ->
  exists newest oldest,
    In newest l /\ In oldest l /\
    name newest = name r /\ name oldest = name r /\
    r = mksubject (name r) (mark newest) (get_status (mark newest))
          (semester oldest) (mark_display newest) (release_date oldest)
          (parsed_date oldest).
Proof.
  destruct (process_duplicates_spec l) as (fs & F & P). rewrite P.
  intros [= <-] I. apply sorted_In in I.
  destruct (Forall2_In_r _ _ _ _ F I) as (n & _ & C).
  pose proof (combine_group_name _ _ _ C) as N.
  destruct (combine_group_fields _ _ _ C) as (newest & oldest & In1 & In2 & E).
  apply filter_In in In1, In2. destruct In1 as [In1 H1], In2 as [In2 H2].
  apply str_eqb_eq in H1, H2.
  exists newest, oldest. rewrite N. repeat split; auto.
Qed.

Lemma process_duplicates_keeps_well_formed subjects_data :
  Forall well_formed subjects_data ->
  exists out,
    process_duplicates subjects_data = Some out /\ Forall well_formed out.
Proof.
  intros W. destruct (process_duplicates_spec subjects_data) as (fs & F & P).
  eexists. split; [exact P|]. rewrite Forall_forall in *. intros r I.
  destruct (process_duplicates_fields _ _ _ P I)
    as (newest & oldest & In1 & In2 & N1 & N2 & E).
  destruct (W _ In1) as (A1 & A2 & A3 & A4 & A5 & A6 & A7 & A8).
  destruct (W _ In2) as (B1 & B2 & B3 & B4 & B5 & B6 & B7 & B8).
  rewrite E. unfold well_formed. simpl. rewrite <- N1.
  repeat split; assumption.
Qed.

(** X7. The reconciliation keeps the entries well formed: the mark
    stays with its own mark string and the parsed date with its own date
    string, though the two pairs may come from different rows. *)
Theorem process_duplicates_well_formed subjects_data :
  Forall well_formed subjects_data ->
  exists out,
    process_duplicates subjects_data = Some out /\ Forall well_formed out.
Proof. apply process_duplicates_keeps_well_formed. Qed.

(** X5. The fetch fails only when the request raised or the page has no
    table: the reconciliation itself never raises. Otherwise the result
    carries the identifier asked for, the name and year of the page and
    the reconciliation of the rows of the last table, all well formed and
    with different names. *)
Theorem fetch_student_data_from_result response student_id :
  (fetch_student_data_from response student_id = None <->
   response = None \/ exists page, response = Some page /\ tables page = []) /\
  (forall d,
     fetch_student_data_from response student_id = Some d ->
     exists page,
       response = Some page /\
       sd_id d = student_id /\
       sd_name d = match name_element page with
                   | Some text => strip text
                   | None => UNKNOWN
                   end /\
       sd_year d = match panel_headings page with
                   | [] => UNKNOWN
                   | _ :: _ => strip (last (panel_headings page) [])
                   end /\
       process_duplicates (rows_loop (tl (last (tables page) []))) =
         Some (sd_subjects d) /\
       Forall well_formed (sd_subjects d) /\
       NoDup (map name (sd_subjects d))).
Proof.
  unfold fetch_student_data_from, fetch_student_data.
  destruct response as [page|]; [|split; [split; auto|discriminate]].
  unfold scrape.
  destruct (tables page) as [|t ts] eqn:T.
  - split; [split; eauto|discriminate].
  - cbv zeta. cbn [sc_subjects_data sc_name sc_year].
    destruct (process_duplicates_keeps_well_formed
                (rows_loop (tl (last (t :: ts) [])))) as (out & P & W).
    { rewrite Forall_forall. intros e I. apply rows_loop_In in I.
      destruct I as (cells & _ & R). eapply row_subject_well_formed, R. }
    rewrite P. split.
    + split; [discriminate|]. intros [H|(pg & [= <-] & H)]; congruence.
    + intros d [= <-]. exists page. cbn [sd_id sd_name sd_year sd_subjects]. rewrite T.
      repeat split; auto.
      eapply process_duplicates_NoDup; eauto.
Qed.

End RowsFacts.

(** ** The normalisation of the mark *)

Lemma startswith_spec p s :
  startswith p s = true <-> exists v, s = p ++ v.
Proof.
  revert s. induction p as [|a p IH]; intros s; simpl.
  - split; [eauto|reflexivity].
  - destruct s as [|b s].
    + split; [discriminate|]. intros (v & E). discriminate.
    + rewrite andb_true_iff, N.eqb_eq, IH. split.
      * intros (-> & v & ->). eauto.
      * intros (v & E). injection E as -> ->. eauto.
Qed.

Lemma contains_spec p s :
  contains p s = true <-> exists u v, s = u ++ p ++ v.
Proof.
  induction s as [|c s IH].
  - simpl. rewrite orb_false_r, startswith_spec. split.
    + intros (v & E). exists [], v. exact E.
    + intros (u & v & E). destruct u as [|x u]; [eauto|discriminate].
  - cbn [contains]. rewrite orb_true_iff, startswith_spec, IH. split.
    + intros [(v & E)|(u & v & E)].
      * exists [], v. exact E.
      * exists (c :: u), v. simpl. f_equal. exact E.
    + intros (u & v & E). destruct u as [|x u].
      * left. eauto.
      * right. injection E as -> E. eauto.
Qed.

Lemma contains_infix p pre s post :
  contains p (pre ++ s ++ post) = false -> contains p s = false.
Proof.
  intros H. destruct (contains p s) eqn:E; [|reflexivity].
  apply contains_spec in E. destruct E as (u & v & ->).
  enough (contains p (pre ++ (u ++ p ++ v) ++ post) = true) by congruence.
  apply contains_spec. exists (pre ++ u), (v ++ post).
  rewrite <- !app_assoc. reflexivity.
Qed.

Lemma lstrip_suffix s : exists pre, s = pre ++ lstrip s.
Proof.
  induction s as [|c s (pre & IH)]; simpl; [exists []; reflexivity|].
  destruct (isspace_char c).
  - exists (c :: pre). simpl. f_equal. exact IH.
  - exists []. reflexivity.
Qed.

Lemma strip_infix s : exists pre post, s = pre ++ strip s ++ post.
Proof.
  unfold strip, rstrip. destruct (lstrip_suffix s) as (pre & E).
  destruct (lstrip_suffix (rev (lstrip s))) as (post & E').
  exists pre, (rev post). rewrite <- rev_app_distr, <- E', rev_involutive.
  exact E.
Qed.

(** A text in which [old] does not occur is left as it is. *)
Lemma replace_absent old new s :
  contains old s = false -> replace old new s = s.
Proof.
  unfold replace. induction s as [|c s IH]; [reflexivity|].
  cbn [contains replace_go]. intros H. apply orb_false_iff in H.
  destruct H as [-> H]. f_equal. exact (IH H).
Qed.

(** Replacing a key of two characters by one character. *)
Lemma replace_two a b d s :
  replace [a; b] [d] s =
  match s with
  | x :: y :: s' =>
      if (a =? x)%N && (b =? y)%N then d :: replace [a; b] [d] s'
      else x :: replace [a; b] [d] (y :: s')
  | _ => s
  end.
Proof.
  unfold replace. destruct s as [|x [|y s']]; [reflexivity| |].
  - simpl. rewrite andb_false_r. reflexivity.
  - cbn [replace_go startswith length Nat.sub]. rewrite andb_true_r.
    destruct ((a =? x)%N && (b =? y)%N); reflexivity.
Qed.

Lemma contains_two p q s :
  contains [p; q] s =
  match s with
  | x :: y :: s' => ((p =? x)%N && (q =? y)%N) || contains [p; q] (y :: s')
  | _ => false
  end.
Proof.
  destruct s as [|x [|y s']]; [reflexivity| |].
  - simpl. rewrite andb_false_r. reflexivity.
  - cbn [contains startswith]. rewrite andb_true_r. reflexivity.
Qed.

(** After the replacement a pair of characters other than the new one
    occurs only if it occurred before, and the key itself is gone; the
    result starts with the new character or as the text did. *)
Lemma replace_two_pairs a b d n :
  forall s, (length s <= n)%nat ->
    (hd_error (replace [a; b] [d] s) = hd_error s \/
     hd_error (replace [a; b] [d] s) = Some d) /\
    (d <> a -> d <> b -> contains [a; b] (replace [a; b] [d] s) = false) /\
    (forall p q, d <> p -> d <> q -> contains [p; q] s = false ->
                 contains [p; q] (replace [a; b] [d] s) = false).
Proof.
  induction n as [|n IH]; intros s L.
  - destruct s; [|simpl in L; lia]. repeat split; auto.
  - rewrite (replace_two a b d s).
    destruct s as [|x [|y s']];
      [repeat split; auto
      |repeat split; intros; rewrite ?contains_two; auto|].
    simpl in L.
    destruct ((a =? x)%N && (b =? y)%N) eqn:M.
    + destruct (IH s' ltac:(lia)) as (H1 & H2 & H3).
      split; [right; reflexivity|]. split.
      * intros Da Db. rewrite contains_two.
        destruct (replace [a; b] [d] s') as [|z r] eqn:R; [reflexivity|].
        rewrite <- R.
        replace (a =? d)%N with false
          by (symmetry; apply N.eqb_neq; congruence).
        simpl. rewrite R. auto.
      * intros p q Dp Dq C. rewrite contains_two in C.
        apply orb_false_iff in C. destruct C as [_ C].
        assert (contains [p; q] s' = false) as C'
          by (apply (contains_infix [p; q] [y] s' []); rewrite app_nil_r;
              exact C).
        rewrite contains_two.
        destruct (replace [a; b] [d] s') as [|z r] eqn:R; [reflexivity|].
        rewrite <- R.
        replace (p =? d)%N with false
          by (symmetry; apply N.eqb_neq; congruence).
        simpl. rewrite R. auto.
    + destruct (IH (y :: s') ltac:(simpl; lia)) as (H1 & H2 & H3).
      split; [left; reflexivity|]. split.
      * intros Da Db. rewrite contains_two.
        destruct (replace [a; b] [d] (y :: s')) as [|z r] eqn:R; [reflexivity|].
        rewrite (H2 Da Db), orb_false_r.
        destruct H1 as [H1|H1]; simpl in H1; injection H1 as ->.
        -- exact M.
        -- replace (b =? d)%N with false
             by (symmetry; apply N.eqb_neq; congruence).
           apply andb_false_r.
      * intros p q Dp Dq C. rewrite contains_two in C.
        apply orb_false_iff in C. destruct C as [C0 C].
        rewrite contains_two.
        destruct (replace [a; b] [d] (y :: s')) as [|z r] eqn:R; [reflexivity|].
        rewrite (H3 p q Dp Dq C), orb_false_r.
        destruct H1 as [H1|H1]; simpl in H1; injection H1 as ->.
        -- exact C0.
        -- replace (q =? d)%N with false
             by (symmetry; apply N.eqb_neq; congruence).
           apply andb_false_r.
Qed.

Lemma fold_replace_keys dict :
  Forall two_to_one dict ->
  forall done s,
    Forall (apart (done ++ map fst dict)) dict ->
    Forall two_to_one (map (fun k => (k, [0%N])) done) ->
    (forall k, In k done -> contains k s = false) ->
    forall k, In k (done ++ map fst dict) ->
      contains k
        (fold_left (fun result kv => replace (fst kv) (snd kv) result) dict s)
      = false.
Proof.
  induction 1 as [|kv dict (a & b & d & ->) T IH]; intros done s A D C k I.
  - simpl in *. rewrite app_nil_r in I. auto.
  - cbn [fold_left fst snd].
    inversion A as [|? ? A0 A']; subst.
    assert (forall k, In k (done ++ [a; b] :: map fst dict) -> ~ In d k) as Ad
      by (intros k' I'; apply (A0 k' d I'); left; reflexivity).
    destruct (replace_two_pairs a b d (length s) s (le_n _)) as (_ & H2 & H3).
    apply (IH (done ++ [[a; b]])).
    + cbn [map] in A'. rewrite <- app_assoc. exact A'.
    + rewrite map_app. apply Forall_app. split; [exact D|].
      constructor; [|constructor]. exists a, b, 0%N. reflexivity.
    + intros k' I'. apply in_app_or in I'. destruct I' as [I'|[<-|[]]].
      * rewrite Forall_forall in D.
        destruct (D (k', [0%N])) as (p & q & z & E);
          [apply in_map_iff; eauto|].
        injection E as -> _.
        assert (~ In d [p; q]) as N
          by (apply Ad, in_or_app; left; exact I').
        apply H3; [intros ->; apply N; left; reflexivity
                  |intros ->; apply N; right; left; reflexivity
                  |apply C, I'].
      * assert (~ In d [a; b]) as N
          by (apply Ad, in_or_app; right; left; reflexivity).
        apply H2; [intros ->; apply N; left; reflexivity
                  |intros ->; apply N; right; left; reflexivity].
    + rewrite <- app_assoc. exact I.
Qed.

Lemma arabic_to_english_two_to_one : Forall two_to_one arabic_to_english.
Proof. repeat constructor; eexists; eexists; eexists; reflexivity. Qed.

Lemma arabic_to_english_apart :
  Forall (apart ([] ++ map fst arabic_to_english)) arabic_to_english.
Proof.
  assert (forallb (fun kv => forallb (fun k => forallb (fun d =>
            negb (existsb (N.eqb d) k)) (snd kv)) arabic_keys)
            arabic_to_english = true) as H by (vm_compute; reflexivity).
  rewrite forallb_forall in H. apply Forall_forall. intros kv I k d Ik Id N.
  specialize (H kv I). rewrite forallb_forall in H. specialize (H k Ik).
  rewrite forallb_forall in H. specialize (H d Id).
  apply negb_true_iff in H.
  assert (existsb (N.eqb d) k = true) as E
    by (apply existsb_exists; exists d; split; [exact N|apply N.eqb_refl]).
  congruence.
Qed.

Lemma strip_no_key k s : contains k s = false -> contains k (strip s) = false.
Proof.
  destruct (strip_infix s) as (pre & post & E). intros H. rewrite E in H.
  eapply contains_infix, H.
Qed.

Lemma fold_replace_absent dict s :
  (forall k, In k (map fst dict) -> contains k s = false) ->
  fold_left (fun result kv => replace (fst kv) (snd kv) result) dict s = s.
Proof.
  induction dict as [|[k v] dict IH]; intros H; [reflexivity|].
  cbn [fold_left fst snd]. rewrite replace_absent by (apply H; left; reflexivity).
  apply IH. intros k' I. apply H. right. exact I.
Qed.

Lemma arabic_keys_head k : In k arabic_keys -> hd_error k = Some 0x178%N.
Proof.
  revert k. apply Forall_forall. repeat constructor.
Qed.

Lemma no_key_without_head text k :
  ~ In 0x178%N text -> In k arabic_keys -> contains k text = false.
Proof.
  intros N I. destruct (contains k text) eqn:C; [|reflexivity].
  exfalso. apply N. apply contains_spec in C. destruct C as (u & v & ->).
  apply arabic_keys_head in I. destruct k as [|c k]; [discriminate|].
  injection I as ->. apply in_or_app. right. left. reflexivity.
Qed.

(** X2. A text in which no key of the dictionary occurs is only
    stripped of its surrounding whitespace. The keys, as the file has
    them, are pairs of characters that start with U+0178: a text without
    that character, the Arabic-Indic digits U+0660 to U+0669 included, is
    such a text. *)
Theorem convert_arabic_numbers_no_key text :
  (forall k, In k arabic_keys -> contains k text = false) \/
  ~ In 0x178%N text ->
  convert_arabic_numbers text = strip text.
Proof.
  intros H. unfold convert_arabic_numbers.
  rewrite fold_replace_absent; [reflexivity|].
  destruct H as [H|H]; [exact H|]. intros k. apply no_key_without_head, H.
Qed.

(** X1. Whatever the text: no key of the dictionary occurs in the
    result, the result carries no surrounding whitespace, and normalising
    it once more changes nothing. *)
Theorem convert_arabic_numbers_normal text :
  let r := convert_arabic_numbers text in
  (forall k, In k arabic_keys -> contains k r = false) /\
  strip r = r /\
  convert_arabic_numbers r = r.
Proof.
  intros r.
  assert (forall k, In k arabic_keys -> contains k r = false) as K.
  { intros k I. apply strip_no_key.
    apply (fold_replace_keys arabic_to_english arabic_to_english_two_to_one
             [] text arabic_to_english_apart);
      [constructor|intros ? []|exact I]. }
  assert (strip r = r) as S by apply strip_idem.
  split; [exact K|]. split; [exact S|].
  unfold convert_arabic_numbers at 1.
  rewrite fold_replace_absent by exact K. exact S.
Qed.

(** ** The dates that are parsed *)

Lemma decimal_value_bound c v : decimal_value c = Some v -> (v <= 9)%N.
Proof.
  unfold decimal_value.
  destruct (find _ DECIMAL_BLOCKS) as [b|] eqn:F; [|discriminate].
  apply find_some in F. destruct F as [_ F]. intros [= <-].
  apply andb_true_iff in F. rewrite N.leb_le, N.ltb_lt in F. lia.
Qed.

Lemma decimal_value_digit_char k :
  (k <= 9)%N -> decimal_value (digit_char k) = Some k.
Proof.
  intros H.
  assert (In k [0; 1; 2; 3; 4; 5; 6; 7; 8; 9]%N) as I.
  { assert (k = 0 \/ k = 1 \/ k = 2 \/ k = 3 \/ k = 4 \/ k = 5 \/ k = 6 \/
            k = 7 \/ k = 8 \/ k = 9)%N as D by lia.
    simpl. intuition. }
  clear H. revert k I. apply Forall_forall.
  repeat constructor.
Qed.

Lemma digit_char_not_space k : (k <= 9)%N -> isspace_char (digit_char k) = false.
Proof.
  intros H. apply digit_not_space. apply in_ranges_spec.
  exists (0x30, 0x39)%N. unfold digit_char. cbn [fst snd].
  split; [left; reflexivity|lia].
Qed.

Lemma re_Y_bound s y r : re_Y s = Some (y, r) -> (y <= 9999)%N.
Proof.
  unfold re_Y. destruct s as [|a [|b [|c [|d s]]]]; try discriminate.
  destruct (decimal_value a) as [a'|] eqn:A; [|discriminate].
  destruct (decimal_value b) as [b'|] eqn:B; [|discriminate].
  destruct (decimal_value c) as [c'|] eqn:C; [|discriminate].
  destruct (decimal_value d) as [d'|] eqn:D; [|discriminate].
  apply decimal_value_bound in A, B, C, D. intros E.
  assert ((1000 * a' + 100 * b' + 10 * c' + d')%N = y) by congruence. lia.
Qed.

Lemma re_m_bound s m r : In (m, r) (re_m s) -> (m <= 12)%N.
Proof. unfold re_m. intros I. pick_alternative I s; lia. Qed.

Lemma re_month_day_bound ms m d r :
  (forall m' r', In (m', r') ms -> (m' <= 12)%N) ->
  re_month_day ms = Some (m, d, r) -> (m <= 12)%N.
Proof.
  induction ms as [|[m0 s0] ms IH]; simpl; [discriminate|]. intros H.
  assert (forall m' r', In (m', r') ms -> (m' <= 12)%N) as H'
    by (intros; eapply H; right; eauto).
  destruct (expect SLASH s0) as [s1|]; [|auto].
  destruct (re_d s1) as [|[d0 r0] ds]; [auto|].
  intros [= <- <- <-]. eapply H. left. reflexivity.
Qed.

Lemma strptime_valid s d : strptime s = Some d -> valid_date d.
Proof.
  unfold strptime.
  destruct (re_Y s) as [[y s1]|] eqn:Y; [|discriminate].
  destruct (expect SLASH s1) as [s2|]; [|discriminate].
  destruct (re_month_day (re_m s2)) as [[[m dd] rest]|] eqn:E; [|discriminate].
  destruct rest; [|discriminate].
  destruct (y =? 0)%N eqn:Y0; [discriminate|].
  destruct (days_in_month y m <? dd)%N eqn:D; [discriminate|].
  intros [= <-]. unfold valid_date. cbn [year month day].
  apply N.eqb_neq in Y0. apply N.ltb_ge in D. apply re_Y_bound in Y.
  pose proof (re_month_day_positive _ _ _ _ (re_m_positive s2) E).
  pose proof (re_month_day_bound _ _ _ _ (re_m_bound s2) E).
  lia.
Qed.

Lemma re_Y_text y r :
  (y <= 9999)%N ->
  re_Y (two_digits (y / 100) ++ two_digits (y mod 100) ++ r) = Some (y, r).
Proof.
  intros H. unfold two_digits, re_Y. cbn [app].
  assert (y / 100 / 10 <= 9 /\ (y / 100) mod 10 <= 9 /\
          y mod 100 / 10 <= 9 /\ (y mod 100) mod 10 <= 9)%N as (A & B & C & D).
  { pose proof (N.mod_lt y 100 ltac:(lia)).
    pose proof (N.mod_lt (y / 100) 10 ltac:(lia)).
    pose proof (N.mod_lt (y mod 100) 10 ltac:(lia)).
    assert (y / 100 <= 99)%N
      by (apply N.lt_succ_r, N.Div0.div_lt_upper_bound; lia).
    assert (y / 100 / 10 <= 9)%N
      by (apply N.lt_succ_r, N.Div0.div_lt_upper_bound; lia).
    assert (y mod 100 / 10 <= 9)%N
      by (apply N.lt_succ_r, N.Div0.div_lt_upper_bound; lia).
    lia. }
  rewrite !decimal_value_digit_char by assumption.
  do 3 f_equal.
  rewrite (N.div_mod y 100) at 5 by lia.
  rewrite (N.div_mod (y / 100) 10) at 3 by lia.
  rewrite (N.div_mod (y mod 100) 10) at 3 by lia.
  lia.
Qed.

Lemma re_month_day_text m d :
  (1 <= m <= 12)%N -> (1 <= d <= 31)%N ->
  re_month_day (re_m (two_digits m ++ [SLASH] ++ two_digits d)) =
  Some (m, d, []).
Proof.
  intros Hm Hd.
  assert (forallb (fun m => forallb (fun d =>
            match re_month_day (re_m (two_digits m ++ [SLASH] ++ two_digits d)) with
            | Some (m', d', []) => (m' =? m)%N && (d' =? d)%N
            | _ => false
            end) (map N.of_nat (seq 1 31))) (map N.of_nat (seq 1 12)) = true)
    as H by (vm_compute; reflexivity).
  rewrite forallb_forall in H.
  assert (In m (map N.of_nat (seq 1 12))) as Im
    by (apply in_map_iff; exists (N.to_nat m); split;
        [apply N2Nat.id|apply in_seq; lia]).
  specialize (H m Im). rewrite forallb_forall in H.
  assert (In d (map N.of_nat (seq 1 31))) as Id
    by (apply in_map_iff; exists (N.to_nat d); split;
        [apply N2Nat.id|apply in_seq; lia]).
  specialize (H d Id).
  destruct (re_month_day _) as [[[m' d'] [|? ?]]|]; try discriminate.
  apply andb_true_iff in H. rewrite !N.eqb_eq in H. destruct H as [-> ->].
  reflexivity.
Qed.

Lemma days_in_month_bound y m : (days_in_month y m <= 31)%N.
Proof.
  unfold days_in_month.
  destruct (m =? 2)%N; [destruct (is_leap y); lia|].
  destruct (_ || _); lia.
Qed.

Lemma strptime_date_text d : valid_date d -> strptime (date_text d) = Some d.
Proof.
  destruct d as [y m dd]. unfold valid_date, date_text. cbn [year month day].
  intros (Hy & Hm & Hd). pose proof (days_in_month_bound y m).
  unfold strptime. rewrite re_Y_text by lia.
  cbn [app expect]. rewrite N.eqb_refl.
  change (two_digits m ++ SLASH :: two_digits dd)
    with (two_digits m ++ [SLASH] ++ two_digits dd).
  rewrite re_month_day_text by lia.
  replace (y =? 0)%N with false by (symmetry; apply N.eqb_neq; lia).
  replace (days_in_month y m <? dd)%N with false
    by (symmetry; apply N.ltb_ge; lia).
  reflexivity.
Qed.

Lemma strip_date_text d : valid_date d -> strip (date_text d) = date_text d.
Proof.
  destruct d as [y m dd]. unfold valid_date, date_text. cbn [year month day].
  intros (Hy & Hm & Hd). pose proof (days_in_month_bound y m).
  assert (y / 100 / 10 <= 9)%N as A.
  { assert (y / 100 <= 99)%N
      by (apply N.lt_succ_r, N.Div0.div_lt_upper_bound; lia).
    apply N.lt_succ_r, N.Div0.div_lt_upper_bound; lia. }
  assert (dd mod 10 <= 9)%N as B by (pose proof (N.mod_lt dd 10 ltac:(lia)); lia).
  unfold strip, two_digits. cbn [app].
  rewrite lstrip_head by (apply digit_char_not_space, A).
  unfold rstrip. cbn [rev app].
  rewrite lstrip_head by (apply digit_char_not_space, B).
  reflexivity.
Qed.

(** X3. The whitespace around the text of a date is ignored; a date that
    is parsed is a date of the calendar, from 0001-01-01 to 9999-12-31;
    and every date of the calendar is parsed from its text of four, two
    and two digits. *)
Theorem parse_date_calendar :
  (forall date_str, parse_date (strip date_str) = parse_date date_str) /\
  (forall date_str d, parse_date date_str = Some d -> valid_date d) /\
  (forall d, valid_date d -> parse_date (date_text d) = Some d).
Proof.
  split; [|split].
  - intros date_str. unfold parse_date. rewrite strip_idem. reflexivity.
  - intros date_str d. apply strptime_valid.
  - intros d V. unfold parse_date. rewrite strip_date_text by exact V.
    apply strptime_date_text, V.
Qed.

(** ** The delivery of any message *)

Lemma events_bind_const {A B : Type} (c : io A) (k : io B) :
  events (c ;; k) = events c ++ events k.
Proof. unfold bind, events. destruct c, k. reflexivity. Qed.

Lemma send_parts_replies parts cur :
  events (send_parts parts cur) =
  map ReplyText (reply_texts (events (send_parts parts cur))) /\
  Forall (fun t => t <> []) (reply_texts (events (send_parts parts cur))).
Proof.
  revert cur. induction parts as [|p parts IH]; intros cur; simpl.
  - split; [reflexivity|constructor].
  - destruct (LIMIT <? len (cur ++ p ++ [NL; NL]))%nat; [|apply IH].
    rewrite events_bind_const, reply_texts_app, map_app.
    destruct (IH (p ++ [NL; NL])) as (E & F). rewrite <- E.
    destruct cur as [|c cur]; simpl.
    + split; [reflexivity|exact F].
    + split; [reflexivity|]. constructor; [discriminate|exact F].
Qed.

Lemma deliver_replies m : events (deliver m) = map ReplyText (chunks m).
Proof.
  unfold chunks, deliver. destruct (LIMIT <? len m)%nat; [|reflexivity].
  unfold bind. destruct (send_parts_replies (split_nlnl m) []) as (E & _).
  destruct (send_parts (split_nlnl m) []) as [es cur]. unfold events in *.
  cbn [fst] in E.
  destruct cur as [|c cur]; cbn [ret reply_text fst];
    rewrite reply_texts_app, map_app, <- E; reflexivity.
Qed.

Lemma chunks_short m : (LIMIT <? len m)%nat = false -> chunks m = [m].
Proof. intros L. unfold chunks, deliver. rewrite L. reflexivity. Qed.

Lemma chunks_nonempty m :
  (LIMIT <? len m)%nat = true -> Forall (fun t => t <> []) (chunks m).
Proof.
  intros L. rewrite chunks_long by exact L. apply Forall_app. split.
  - apply send_parts_replies.
  - constructor; [|constructor]. apply send_parts_final_nonempty.
    apply split_nlnl_nonempty.
Qed.

(** X10. The delivery of a message, whatever the message: the handler
    does nothing but reply, once at least. A message of at most 4000
    characters is the single reply. A longer one goes out in chunks none
    of which is empty, that together are the message followed by one
    separator; a chunk is within the limit or is one single part with its
    separator; so all chunks are within the limit when every part with
    its separator is. *)
Theorem deliver_chunks m :
  events (deliver m) = map ReplyText (chunks m) /\
  chunks m <> [] /\
  ((len m <= LIMIT)%nat -> chunks m = [m]) /\
  ((LIMIT < len m)%nat ->
   concat (chunks m) = m ++ NLNL /\
   Forall (fun chunk => chunk <> []) (chunks m) /\
   Forall (chunk_ok (split_nlnl m)) (chunks m) /\
   (Forall (fun p => (len p + 2 <= LIMIT)%nat) (split_nlnl m) ->
    Forall (fun chunk => (len chunk <= LIMIT)%nat) (chunks m))).
Proof.
  split; [apply deliver_replies|]. split; [|split].
  - destruct (LIMIT <? len m)%nat eqn:L.
    + rewrite chunks_long by exact L. intros E.
      apply app_eq_nil in E. destruct E as [_ E]. discriminate.
    + rewrite chunks_short by exact L. discriminate.
  - intros L. apply chunks_short, Nat.ltb_ge, L.
  - intros L. apply Nat.ltb_lt in L. split; [apply chunks_concat, L|].
    split; [apply chunks_nonempty, L|]. split; [apply chunks_ok, L|].
    apply chunks_within_limit, L.
Qed.

(** ** The report *)

Lemma runs_cons x y l :
  runs (x :: y :: l) = if str_eqb x y then runs (y :: l) else S (runs (y :: l)).
Proof. reflexivity. Qed.

Lemma str_eqb_sym a b : str_eqb a b = str_eqb b a.
Proof.
  destruct (str_eqb b a) eqn:E.
  - apply str_eqb_eq in E. subst. apply str_eqb_refl.
  - apply str_eqb_neq. intros ->. rewrite str_eqb_refl in E. discriminate.
Qed.

Lemma subject_lines_length subjects : forall i c,
  (length (subject_lines i (Some c) subjects) + 1 =
   3 * length subjects + runs (c :: map semester_num subjects))%nat.
Proof.
  induction subjects as [|s subjects IH]; intros i c; [reflexivity|].
  cbn [subject_lines map length]. fold (semester_num s).
  rewrite runs_cons, !length_app. cbn [length opt_str_eqb].
  rewrite (str_eqb_sym c).
  specialize (IH (S i)).
  destruct (str_eqb (semester_num s) c) eqn:E; cbn [negb length].
  - apply str_eqb_eq in E. subst c. specialize (IH (semester_num s)).
    unfold str in *. lia.
  - specialize (IH (semester_num s)). unfold str in *. lia.
Qed.

Lemma subject_lines_length_first subjects i :
  length (subject_lines i None subjects) =
  (3 * length subjects + runs (map semester_num subjects))%nat.
Proof.
  destruct subjects as [|s subjects]; [reflexivity|].
  cbn [subject_lines map]. fold (semester_num s). cbn [opt_str_eqb negb].
  rewrite !length_app. cbn [length].
  pose proof (subject_lines_length subjects (S i) (semester_num s)) as H.
  unfold str in *. lia.
Qed.

Lemma passed_count_le subjects : (passed_count subjects <= length subjects)%nat.
Proof. unfold passed_count. apply filter_length_le. Qed.

Lemma join_head sep x y l :
  exists t, join sep ((x :: y) :: l) = x :: t.
Proof. destruct l; simpl; eauto. Qed.

Lemma report_head d : exists c t,
  join [NL] (report_lines d) = c :: t /\ hd_error NO_DATA_MESSAGE <> Some c.
Proof.
  unfold report_lines. cbv zeta.
  match goal with
  | |- exists _ _, join _ ([?h ++ _; _; _] ++ _) = _ /\ _ =>
      let v := eval vm_compute in h in change h with v
  end.
  cbn [app].
  match goal with
  | |- exists _ _, join ?sep ((?x :: ?y) :: ?l) = _ /\ _ =>
      destruct (join_head sep x y l) as (t & J); rewrite J
  end.
  eexists. eexists. split; [reflexivity|]. vm_compute. discriminate.
Qed.

(** X11. The formatter gives the no-data message exactly when there is
    no record or the record has no subject; a text it gives is never
    empty. Otherwise the report has three lines of header, three lines
    for every subject, one semester heading for each run of consecutive
    subjects of the same semester class, and three lines of summary; and
    the two counts of the last line add up to the number of subjects. *)
Theorem format_student_message_shape student_data :
  (format_student_message student_data = NO_DATA_MESSAGE <->
   student_data = None \/
   exists d, student_data = Some d /\ sd_subjects d = []) /\
  format_student_message student_data <> [] /\
  forall d, student_data = Some d -> sd_subjects d <> [] ->
    let n := length (sd_subjects d) in
    format_student_message student_data = join [NL] (report_lines d) /\
    length (report_lines d) =
      (6 + 3 * n + runs (map semester_num (sd_subjects d)))%nat /\
    last (report_lines d) [] =
      counts_line (passed_count (sd_subjects d))
                  (n - passed_count (sd_subjects d)) /\
    (passed_count (sd_subjects d) + (n - passed_count (sd_subjects d)) = n)%nat.
Proof.
  split; [|split].
  - unfold format_student_message. destruct student_data as [d|].
    + destruct (sd_subjects d) as [|s l] eqn:E.
      * split; [eauto|reflexivity].
      * split.
        -- intros H. exfalso. destruct (report_head d) as (c & t & J & N).
           rewrite J in H. rewrite <- H in N. apply N. reflexivity.
        -- intros [H|(d' & [= <-] & H)]; congruence.
    + split; auto.
  - unfold format_student_message.
    destruct student_data as [d|]; [|discriminate].
    destruct (sd_subjects d) as [|s l] eqn:E; [discriminate|].
    destruct (report_head d) as (c & t & J & _). rewrite J. discriminate.
  - intros d -> NE n. split; [|split; [|split]].
    + unfold format_student_message.
      destruct (sd_subjects d); [congruence|reflexivity].
    + unfold report_lines. cbv zeta. rewrite !length_app.
      rewrite subject_lines_length_first. cbn [length]. subst n. lia.
    + unfold report_lines. cbv zeta. rewrite app_assoc.
      match goal with
      | |- last (?a ++ [?x; ?y; ?z]) _ = _ =>
          change (a ++ [x; y; z]) with (a ++ [x; y] ++ [z]);
          rewrite app_assoc; apply last_last
      end.
    + pose proof (passed_count_le (sd_subjects d)). subst n. lia.
Qed.

(** ** The handler from the message to the replies *)

Lemma format_student_message_nonempty student_data :
  format_student_message student_data <> [].
Proof.
  unfold format_student_message.
  destruct student_data as [d|]; [|discriminate].
  destruct (sd_subjects d) as [|s l] eqn:E; [discriminate|].
  destruct (report_head d) as (c & t & J & _). rewrite J. discriminate.
Qed.

Lemma chunks_all_nonempty m : m <> [] -> Forall (fun t => t <> []) (chunks m).
Proof.
  intros NE. destruct (LIMIT <? len m)%nat eqn:L.
  - apply chunks_nonempty, L.
  - rewrite chunks_short by exact L. constructor; [exact NE|constructor].
Qed.

Lemma chunks_not_nil m : chunks m <> [].
Proof.
  destruct (LIMIT <? len m)%nat eqn:L.
  - rewrite chunks_long by exact L. intros E.
    apply app_eq_nil in E. destruct E as [_ E]. discriminate.
  - rewrite chunks_short by exact L. discriminate.
Qed.

Lemma handle_student_id_events web text :
  isdigit (strip text) = true ->
  events (handle_student_id web text) =
  SendChatAction :: ReplyText SEARCHING_MESSAGE :: HttpGet (strip text) ::
  map ReplyText
    (match fetch_student_data (web (strip text)) (strip text) with
     | None => [NOT_FOUND_MESSAGE]
     | Some d => chunks (format_student_message (Some d))
     end).
Proof.
  intros D. unfold handle_student_id. rewrite D. cbn [negb].
  unfold bind, send_chat_action, reply_text, fetch, events.
  destruct (fetch_student_data (web (strip text)) (strip text)) as [d|].
  - pose proof (deliver_replies (format_student_message (Some d))) as R.
    unfold events in R.
    destruct (deliver (format_student_message (Some d))) as [es u].
    cbn [fst] in *. rewrite R. reflexivity.
  - reflexivity.
Qed.

Lemma process_duplicates_nil l out :
  process_duplicates l = Some out -> (out = [] <-> l = []).
Proof.
  intros P. apply process_duplicates_names in P. split.
  - intros ->. destruct l as [|x l]; [reflexivity|].
    simpl in P. apply Permutation_nil in P. discriminate.
  - intros ->. simpl in P. apply Permutation_sym, Permutation_nil in P.
    destruct out; [reflexivity|discriminate].
Qed.

(** X8. What the handler does, whatever the message and the site. When
    the stripped text is no digit string: the one reply about the
    identifier. Otherwise: the typing action, the searching reply, one
    request, for the stripped text, and after it replies only, one at
    least and none of them empty. So there is at most one request per
    message, and the handler always ends on a reply. *)
Theorem handle_student_id_trace web text :
  let student_id := strip text in
  let es := events (handle_student_id web text) in
  (isdigit student_id = false /\ es = [ReplyText INVALID_ID_MESSAGE]) \/
  (isdigit student_id = true /\
   exists replies,
     replies <> [] /\ Forall (fun t => t <> []) replies /\
     es = SendChatAction :: ReplyText SEARCHING_MESSAGE ::
          HttpGet student_id :: map ReplyText replies).
Proof.
  intros student_id es. subst es student_id.
  destruct (isdigit (strip text)) eqn:D.
  - right. split; [reflexivity|]. rewrite handle_student_id_events by exact D.
    eexists. split; [|split; [|reflexivity]].
    + destruct (fetch_student_data _ _); [apply chunks_not_nil|discriminate].
    + destruct (fetch_student_data _ _).
      * apply chunks_all_nonempty, format_student_message_nonempty.
      * constructor; [discriminate|constructor].
  - left. split; [reflexivity|]. rewrite handle_invalid by exact D. reflexivity.
Qed.

Section Outcomes.
Context {float_of_str : Floatable str}.

(** X9. The replies for a digit string, from the page of the site: the
    searching reply, and then the not-found message when the request
    fails or the page has no table; the no-data message when the last
    table has no row that gives a subject; and otherwise the chunks of
    the report of the reconciled rows of the last table. *)
Theorem handle_student_id_outcomes site text :
  isdigit (strip text) = true ->
  let student_id := strip text in
  let replies := reply_texts (events (handle_student_id (web_of site) text)) in
  requests (events (handle_student_id (web_of site) text)) = [student_id] /\
  ((site student_id = None \/
    exists page, site student_id = Some page /\ tables page = []) ->
   replies = [SEARCHING_MESSAGE; NOT_FOUND_MESSAGE]) /\
  (forall page,
     site student_id = Some page -> tables page <> [] ->
     rows_loop (tl (last (tables page) [])) = [] ->
     replies = [SEARCHING_MESSAGE; NO_DATA_MESSAGE]) /\
  (forall page,
     site student_id = Some page -> tables page <> [] ->
     rows_loop (tl (last (tables page) [])) <> [] ->
     exists d,
       fetch_student_data_from (site student_id) student_id = Some d /\
       sd_subjects d <> [] /\
       replies = SEARCHING_MESSAGE :: chunks (join [NL] (report_lines d))).
Proof.
  intros D student_id replies. subst replies.
  rewrite handle_student_id_events by exact D. fold student_id.
  assert (forall l, reply_texts (map ReplyText l) = l) as RT
    by (induction l as [|x l IH]; simpl; [reflexivity|f_equal; exact IH]).
  assert (forall l, requests (map ReplyText l) = []) as RQ
    by (induction l as [|x l IH]; simpl; [reflexivity|exact IH]).
  cbn [reply_texts requests flat_map app].
  change (flat_map _ (map ReplyText ?l)) with (requests (map ReplyText l)) at 1.
  change (flat_map _ (map ReplyText ?l)) with (reply_texts (map ReplyText l)).
  rewrite RT, RQ.
  split; [reflexivity|].
  unfold web_of, fetch_student_data.
  split; [|split].
  - intros [->|(page & -> & T)]; [reflexivity|].
    unfold scrape. rewrite T. reflexivity.
  - intros page -> T R. unfold scrape.
    destruct (tables page) as [|t ts] eqn:E; [congruence|].
    cbv zeta. cbn [sc_subjects_data]. rewrite R. reflexivity.
  - intros page S T R. unfold fetch_student_data_from, fetch_student_data.
    rewrite S. unfold scrape.
    destruct (tables page) as [|t ts] eqn:E; [congruence|].
    cbv zeta. cbn [sc_subjects_data sc_name sc_year].
    destruct (process_duplicates_spec (rows_loop (tl (last (t :: ts) []))))
      as (fs & _ & P).
    rewrite P. eexists. split; [reflexivity|]. cbn [sd_subjects].
    assert (sorted sort_key dt_ltb fs <> []) as NE
      by (intros Z; apply R; apply (process_duplicates_nil _ _ P); exact Z).
    split; [exact NE|].
    unfold format_student_message. cbn [sd_subjects].
    destruct (sorted sort_key dt_ltb fs); [congruence|reflexivity].
Qed.

End Outcomes.

(** ** The token and the entry point *)

(** On a line that starts with the prefix, the second piece of the split
    exists and is the rest of the line. *)
Lemma split_once_prefix rest :
  nth_error (split_once 0x3D%N (BOT_TOKEN_PREFIX ++ rest)) 1 = Some rest.
Proof.
  replace (BOT_TOKEN_PREFIX ++ rest) with
    (utf8 "BOT_TOKEN" ++ 0x3D%N :: rest) by reflexivity.
  change (utf8 "BOT_TOKEN") with [66; 79; 84; 95; 84; 79; 75; 69; 78]%N.
  cbn [app split_once N.eqb Pos.eqb cons_head nth_error]. reflexivity.
Qed.

Lemma scan_lines_no_match lines token :
  Forall (fun line => startswith BOT_TOKEN_PREFIX line = false) lines ->
  scan_lines lines token = Some token.
Proof.
  induction 1 as [|line lines H F IH]; cbn [scan_lines]; [reflexivity|].
  rewrite H. exact IH.
Qed.

Lemma scan_lines_match before rest after token :
  Forall (fun line => startswith BOT_TOKEN_PREFIX line = false) before ->
  scan_lines (before ++ (BOT_TOKEN_PREFIX ++ rest) :: after) token =
  Some (Some (strip rest)).
Proof.
  induction 1 as [|line lines H F IH].
  - cbn [app scan_lines]. rewrite startswith_app, split_once_prefix.
    reflexivity.
  - cbn [app scan_lines]. rewrite H. exact IH.
Qed.

Lemma scan_lines_total lines token : exists t, scan_lines lines token = Some t.
Proof.
  induction lines as [|line lines IH]; cbn [scan_lines]; [eauto|].
  destruct (startswith BOT_TOKEN_PREFIX line) eqn:S; [|exact IH].
  apply startswith_spec in S. destruct S as (rest & ->).
  rewrite split_once_prefix. eauto.
Qed.

(** X12. The lookup of the token never raises: on a line that starts
    with [BOT_TOKEN=] the split always has its second piece. A non-empty
    value of the environment is returned as it is, whatever the file
    holds. Otherwise, without a file or without a line that starts with
    the prefix, the value of the environment is returned, and with such a
    line the token is the rest of the first one, stripped. *)
Theorem get_bot_token_result env_token dotenv :
  exists token,
    get_bot_token env_token dotenv = Some token /\
    (falsy env_token = false -> token = env_token) /\
    (falsy env_token = true ->
     (dotenv = None -> token = env_token) /\
     (forall lines, dotenv = Some lines ->
        (Forall (fun line => startswith BOT_TOKEN_PREFIX line = false) lines ->
         token = env_token) /\
        (forall before rest after,
           lines = before ++ (BOT_TOKEN_PREFIX ++ rest) :: after ->
           Forall (fun line => startswith BOT_TOKEN_PREFIX line = false) before ->
           token = Some (strip rest)))).
Proof.
  unfold get_bot_token. destruct (falsy env_token) eqn:F.
  - destruct dotenv as [lines|].
    + destruct (scan_lines_total lines env_token) as (t & E).
      exists t. split; [exact E|]. split; [discriminate|]. intros _.
      split; [discriminate|]. intros lines' [= <-]. split.
      * intros N. rewrite scan_lines_no_match in E by exact N. congruence.
      * intros before rest after -> N.
        rewrite scan_lines_match in E by exact N. congruence.
    + exists env_token. split; [reflexivity|]. split; [discriminate|].
      intros _. split; [reflexivity|discriminate].
  - exists env_token. split; [reflexivity|]. split; [reflexivity|discriminate].
Qed.





(** ** The webhook server *)

Section EndpointsFacts.
Variables (bot_instance : bool) (telegram : call -> bool).

Lemma set_webhook_body_cases request_json env_url :
  let a := set_webhook_body telegram request_json env_url in
  (fst a = [] /\ exists e, snd a = inl e) \/
  (exists url,
     fst a = [SetWebhook url] /\
     (telegram (SetWebhook url) = false -> exists e, snd a = inl e) /\
     (telegram (SetWebhook url) = true ->
      snd a = inr (JDict [(utf8 "status", JStr (utf8 "success"));
                          (utf8 "webhook_url", url)])) /\
     exists data body_url,
       request_json = Some data /\
       py_get data (utf8 "webhook_url") = Some body_url /\
       (truthy body_url = true -> url = body_url) /\
       (truthy body_url = false ->
        exists c u, env_url = Some (c :: u) /\ url = JStr (c :: u))).
Proof.
  unfold set_webhook_body.
  destruct request_json as [data|]; [|left; simpl; eauto].
  destruct (py_get data (utf8 "webhook_url")) as [body_url|] eqn:G;
    [|left; simpl; eauto].
  destruct (truthy body_url) eqn:T.
  - right. exists body_url. unfold call_bot.
    destruct (telegram (SetWebhook body_url)) eqn:E; cbn [fst snd].
    + split; [reflexivity|]. split; [discriminate|]. split; [reflexivity|].
      exists data, body_url. rewrite T. repeat split; auto; discriminate.
    + split; [reflexivity|]. split; [eauto|]. split; [discriminate|].
      exists data, body_url. rewrite T. repeat split; auto; discriminate.
  - destruct env_url as [[|c u]|]; [left; simpl; eauto| |left; simpl; eauto].
    right. exists (JStr (c :: u)). unfold call_bot.
    destruct (telegram (SetWebhook (JStr (c :: u)))) eqn:E; cbn [fst snd].
    + split; [reflexivity|]. split; [discriminate|]. split; [reflexivity|].
      exists data, body_url. rewrite T. repeat split; eauto; discriminate.
    + split; [reflexivity|]. split; [eauto|]. split; [discriminate|].
      exists data, body_url. rewrite T. repeat split; eauto; discriminate.
Qed.

(** X14. The endpoint that sets the webhook answers 200 or 500 and
    nothing else: the exception with status 400 that the code raises when
    no URL is given is raised inside the [try] and is replaced, like any
    other, by the status 500 with the detail of a failed call, and no call
    is made. A URL of the request body takes precedence over the one of
    the environment; the answer is 200 exactly when the one call was made
    and returned, and its body then names the URL that was set. *)
Theorem set_webhook_result request_json env_url :
  let calls := fst (set_webhook bot_instance telegram request_json env_url) in
  let r := snd (set_webhook bot_instance telegram request_json env_url) in
  (status_of r = 200 \/ status_of r = 500) /\
  (forall data,
     request_json = Some data ->
     py_get data (utf8 "webhook_url") = Some JNull ->
     falsy env_url = true ->
     bot_instance = true ->
     calls = [] /\ r = Error 500 (utf8 "Failed to set webhook")) /\
  (calls = [] \/
   exists url data body_url,
     calls = [SetWebhook url] /\
     request_json = Some data /\
     py_get data (utf8 "webhook_url") = Some body_url /\
     (truthy body_url = true -> url = body_url) /\
     (truthy body_url = false ->
      exists c u, env_url = Some (c :: u) /\ url = JStr (c :: u))) /\
  (status_of r = 200 <->
   exists url,
     bot_instance = true /\ calls = [SetWebhook url] /\
     telegram (SetWebhook url) = true /\
     r = Body200 (JDict [(utf8 "status", JStr (utf8 "success"));
                         (utf8 "webhook_url", url)])).
Proof.
  unfold set_webhook. destruct bot_instance; cbn [negb].
  - pose proof (set_webhook_body_cases request_json env_url) as C.
    cbv zeta in C.
    destruct (set_webhook_body telegram request_json env_url) as [calls a] eqn:B.
    cbn [fst snd] in C.
    split; [|split; [|split]].
    + destruct a; simpl; auto.
    + intros data -> G F _. unfold set_webhook_body in B. rewrite G in B.
      cbn [truthy] in B.
      destruct env_url as [[|c u]|]; try discriminate;
        injection B as <- <-; split; reflexivity.
    + destruct C as [(-> & _)|(url & -> & _ & _ & data & body_url & H)].
      * left. destruct a; reflexivity.
      * right. exists url, data, body_url.
        destruct a; simpl; tauto.
    + destruct C as [(-> & e & ->)|(url & -> & Hf & Ht & _)].
      * simpl. split; [discriminate|]. intros (url & _ & [=] & _).
      * destruct (telegram (SetWebhook url)) eqn:E.
        -- rewrite (Ht eq_refl). simpl. split; [eauto 6|reflexivity].
        -- destruct (Hf eq_refl) as (e & ->). simpl.
           split; [discriminate|].
           intros (url' & _ & [= <-] & T & _). congruence.
  - simpl. split; [auto|]. split; [discriminate|]. split; [auto|].
    split; [discriminate|]. intros (url & [=] & _).
Qed.

Variable de_json : json -> bool.

Ltac endpoint_case :=
  cbn [map_attempt guarded status_of length];
  split; [try discriminate; auto|];
  split; [lia|];
  split; [auto|];
  split;
  [ intros H;
    first [ discriminate H
          | split; [reflexivity|eexists; split; [reflexivity|assumption]] ]
  | intros (H0 & c0 & Hc & Hret);
    first [ discriminate H0
          | discriminate Hc
          | injection Hc as <-; first [reflexivity|congruence] ] ].

(** X15. The three endpoints of the bot: without a bot instance each
    answers 500 with the detail that the bot is not initialised and calls
    nothing; with one, each makes one call at most and answers 200 when
    that call was made and returned, and 500 otherwise. An update is
    processed only for data that the request carried and that
    [Update.de_json] accepts. *)
Theorem endpoints_statuses request_json env_url update_data :
  Forall (fun served : served =>
            let (calls, r) := served in
            (bot_instance = false ->
             calls = [] /\ r = Error 500 NOT_INITIALIZED) /\
            (length calls <= 1)%nat /\
            (status_of r = 200 \/ status_of r = 500) /\
            (status_of r = 200 <->
             bot_instance = true /\
             exists c, calls = [c] /\ telegram c = true))
         [webhook bot_instance de_json telegram update_data;
          set_webhook bot_instance telegram request_json env_url;
          delete_webhook bot_instance telegram] /\
  (forall data,
     In (ProcessUpdate data)
        (fst (webhook bot_instance de_json telegram update_data)) ->
     update_data = Some data /\ de_json data = true /\ bot_instance = true).
Proof.
  split.
  - constructor; [|constructor; [|constructor; [|constructor]]].
    + unfold webhook. destruct bot_instance; cbn [negb]; [|endpoint_case].
      destruct update_data as [data|]; [|endpoint_case].
      destruct (de_json data); [|endpoint_case].
      unfold call_bot. destruct (telegram (ProcessUpdate data)) eqn:E;
        endpoint_case.
    + unfold set_webhook. destruct bot_instance; cbn [negb]; [|endpoint_case].
      pose proof (set_webhook_body_cases request_json env_url) as K.
      cbv zeta in K.
      destruct (set_webhook_body telegram request_json env_url) as [calls a].
      cbn [fst snd] in K.
      destruct K as [(-> & e & ->)|(url & -> & Hf & Ht & _)]; [endpoint_case|].
      destruct (telegram (SetWebhook url)) eqn:E.
      * rewrite (Ht eq_refl). endpoint_case.
      * destruct (Hf eq_refl) as (e & ->). endpoint_case.
    + unfold delete_webhook. destruct bot_instance; cbn [negb]; [|endpoint_case].
      unfold call_bot. destruct (telegram DeleteWebhook) eqn:E; endpoint_case.
  - intros data. unfold webhook. destruct bot_instance; cbn [negb].
    + destruct update_data as [data'|]; [|intros []].
      destruct (de_json data') eqn:D; [|intros []].
      unfold call_bot. destruct (telegram (ProcessUpdate data'));
        cbn [map_attempt guarded fst]; intros [[= <-]|[]]; auto.
    + intros [].
Qed.

End EndpointsFacts.

(** ** The further statements at concrete inputs *)

(** The mark in Arabic-Indic digits between two spaces has no U+0178,
    and only the spaces go. *)
Lemma convert_arabic_numbers_no_key_witness :
  ~ In 0x178%N (utf8 " ٧٥ ") /\
  convert_arabic_numbers (utf8 " ٧٥ ") = utf8 "٧٥".
Proof.
  assert (~ In 0x178%N (utf8 " ٧٥ ")) as H
    by (vm_compute; intuition discriminate).
  split; [exact H|].
  rewrite (convert_arabic_numbers_no_key (utf8 " ٧٥ ") (or_intror H)).
  vm_compute. reflexivity.
Defined.

(** The three entries of the rows of [X_page] are well formed, and so are
    the two records they are reconciled to. *)
Lemma process_duplicates_well_formed_witness :
  Forall well_formed X_rows /\
  exists out, process_duplicates X_rows = Some out /\ Forall well_formed out.
Proof.
  assert (Forall well_formed X_rows) as H.
  { let v := eval vm_compute in X_rows in change X_rows with v.
    repeat constructor; try discriminate; vm_compute; reflexivity. }
  split; [exact H|].
  apply (process_duplicates_well_formed X_rows H).
Defined.

(** The identifier of [X_site], with spaces around it. *)
Lemma handle_student_id_outcomes_witness :
  isdigit (strip (utf8 " 202112345 ")) = true /\
  requests (events (handle_student_id (web_of X_site) (utf8 " 202112345 "))) =
    [utf8 "202112345"] /\
  exists d,
    fetch_student_data_from (X_site (utf8 "202112345")) (utf8 "202112345") =
      Some d /\
    map mark_display (sd_subjects d) = [utf8 "٧٥"; utf8 "55"] /\
    reply_texts (events (handle_student_id (web_of X_site) (utf8 " 202112345 "))) =
      [SEARCHING_MESSAGE; join [NL] (report_lines d)].
Proof.
  assert (isdigit (strip (utf8 " 202112345 ")) = true) as H
    by (vm_compute; reflexivity).
  split; [exact H|].
  destruct (handle_student_id_outcomes X_site (utf8 " 202112345 ") H)
    as (R & _ & _ & O).
  split; [exact R|].
  destruct (O X_page) as (d & F & _ & E);
    [vm_compute; reflexivity|discriminate|vm_compute; discriminate|].
  exists d. split; [exact F|]. split.
  - vm_compute in F. injection F as <-. vm_compute. reflexivity.
  - rewrite E. f_equal. change (strip (utf8 " 202112345 ")) with (utf8 "202112345") in F.
    vm_compute in F. injection F as <-. vm_compute. reflexivity.
Defined.

(** The last day of February of a leap year. *)
Lemma parse_date_calendar_witness :
  valid_date (mkdate 2024 2 29) /\
  parse_date (utf8 "2024/02/29") = Some (mkdate 2024 2 29).
Proof.
  assert (valid_date (mkdate 2024 2 29)) as V
    by (unfold valid_date; vm_compute; intuition discriminate).
  split; [exact V|].
  destruct parse_date_calendar as (_ & _ & P).
  exact (P (mkdate 2024 2 29) V).
Defined.

(** No token in the environment, and a file whose second line is the
    first with the prefix. *)
Lemma get_bot_token_result_witness :
  get_bot_token None
    (Some [utf8 "# settings"; utf8 "BOT_TOKEN= abc " ++ [NL];
           utf8 "BOT_TOKEN=other"]) =
  Some (Some (utf8 "abc")).
Proof.
  destruct (get_bot_token_result None
              (Some [utf8 "# settings"; utf8 "BOT_TOKEN= abc " ++ [NL];
                     utf8 "BOT_TOKEN=other"]))
    as (token & E & _ & H).
  destruct (H eq_refl) as (_ & L).
  destruct (L _ eq_refl) as (_ & M).
  rewrite E. f_equal.
  apply (M [utf8 "# settings"] (utf8 " abc " ++ [NL]) [utf8 "BOT_TOKEN=other"]).
  - reflexivity.
  - constructor; [vm_compute; reflexivity|constructor].
Defined.

(** A request body without the key, and no URL in the environment. *)
Lemma set_webhook_result_witness :
  set_webhook true (fun _ => true) (Some (JDict [])) None =
  ([], Error 500 (utf8 "Failed to set webhook")).
Proof.
  destruct (set_webhook_result true (fun _ => true) (Some (JDict [])) None)
    as (_ & H & _).
  destruct (H (JDict []) eq_refl eq_refl eq_refl eq_refl) as (C & R).
  destruct (set_webhook true (fun _ => true) (Some (JDict [])) None)
    as [calls r].
  cbn [fst snd] in C, R. rewrite C, R. reflexivity.
Defined.

